(** * Resonance: the session model, its reducer and the room authority

    A shallow embedding of [src/lib/session.ts], [src/lib/insertStatement.ts],
    [src/lib/generateNegation.ts], [src/party/index.ts] and the ratified-list
    computation of the room page ([src/app/room/[roomId]/page.tsx]).

    Modelling conventions.
    - A JS [number] used as a statement index or a position is modelled as [Z].
    - A [Record<string, boolean>] ([Statement.responses]) is a [gmap string bool]:
      [Object.keys(r).length] is [size r], [{...r, [k]: v}] is
      [<[k:=v]> r] and the rest-destructuring that drops a key is [delete].
      The enumeration order of the keys is not modelled.
    - Statements are distinct JS objects, so [statements.indexOf(st)] (reference
      equality) is the position of [st]; the sort of the scheduler is modelled
      on (position, statement) pairs.
    - A function that throws returns [Err]. *)

From Stdlib Require Import ZArith Lia.
From stdpp Require Import base gmap list strings.

(* ------------------------------------------------------------------ *)
(** ** Data model ([src/lib/session.ts], lines 3-19) *)

Record Statement := mkStatement {
  text : string;
  createdBy : string;
  present : list string;
  responses : gmap string bool
}.

Record Session := mkSession {
  statements : list Statement;
  liveStatementIndex : option Z;
  ratifiedOrder : list Z
}.

Global Instance Statement_eq_dec : EqDecision Statement.
Proof. solve_decision. Defined.

Global Instance Session_eq_dec : EqDecision Session.
Proof. solve_decision. Defined.

(** [xs[i]] for a JS array: [undefined] (here [None]) out of range. *)
Definition nth_Z {A} (l : list A) (i : Z) : option A :=
  if (i <? 0)%Z then None else l !! Z.to_nat i.

(** The positions [0 .. n-1] paired with the elements, as [indexOf] sees them. *)
Definition indexed {A} (l : list A) : list (Z * A) :=
  imap (fun n x => (Z.of_nat n, x)) l.

Definition initializeSession : Session :=
  {| statements := []; liveStatementIndex := None; ratifiedOrder := [] |}.

Definition isStatementResolved (st : Statement) : bool :=
  bool_decide (size (responses st) = length (present st)).

Definition getUnresolvedStatements (s : Session) : list Statement :=
  filter (fun st => negb (isStatementResolved st)) (statements s).

(** [Object.values(st.responses).every(r => r === true)] *)
Definition allAgreed (st : Statement) : bool :=
  forallb (fun r => r) (snd <$> map_to_list (responses st)).

(* ------------------------------------------------------------------ *)
(** ** The live-statement scheduler ([selectNextLiveStatementIndex], lines 102-130) *)

(** [resolvedCountByCreator]: a [Map] filled by one pass over the resolved
    statements. *)
Definition resolvedCountByCreator (s : Session) : gmap string nat :=
  foldl (fun m st =>
           <[createdBy st := default 0 (m !! createdBy st) + 1]> m)
        ∅ (filter (fun st => isStatementResolved st) (statements s)).

(** [resolvedCountByCreator.get(c) || 0] *)
Definition creatorCount (m : gmap string nat) (c : string) : Z :=
  Z.of_nat (default 0 (m !! c)).

(** The comparator of the sort: [a] goes first when it returns a value [<= 0]. *)
Definition cmpStatements (m : gmap string nat) (a b : Z * Statement) : Z :=
  let ac := creatorCount m (createdBy a.2) in
  let bc := creatorCount m (createdBy b.2) in
  if negb (ac =? bc)%Z then (ac - bc)%Z else (a.1 - b.1)%Z.

(** [Array.prototype.sort] with a comparator.  The comparator is a strict total
    order on entries with distinct positions, so every correct sort returns the
    same list; it is modelled by insertion sort. *)
Fixpoint insert_by {A} (before : A -> A -> bool) (x : A) (l : list A) : list A :=
  match l with
  | [] => [x]
  | y :: l' => if before x y then x :: y :: l' else y :: insert_by before x l'
  end.

Definition sort_by {A} (before : A -> A -> bool) (l : list A) : list A :=
  foldr (insert_by before) [] l.

Definition selectNextLiveStatementIndex (s : Session) : option Z :=
  let unresolved :=
    filter (fun p => negb (isStatementResolved p.2)) (indexed (statements s)) in
  match unresolved with
  | [] => None
  | _ =>
    let m := resolvedCountByCreator s in
    let sorted := sort_by (fun a b => (cmpStatements m a b <=? 0)%Z) unresolved in
    match sorted with
    | [] => Some (-1)%Z   (* [indexOf(undefined)]; the list is never empty here *)
    | next :: _ => Some next.1
    end
  end.

(* ------------------------------------------------------------------ *)
(** ** The session reducer ([sessionReducer], lines 132-252) *)

Inductive PresenceOp := Add | Remove.

(** The actions.  [handleAddStatement] also puts [negation] and [negationFirst]
    into the payload object it passes; the tests omit them ([None]). *)
Inductive SessionAction :=
  | ADD_STATEMENT (text createdBy : string) (presentUsers : list string)
      (negation : option string) (negationFirst : option bool)
  | RESPOND_TO_STATEMENT (statementIndex : Z) (userId : string) (response : bool)
  | UPDATE_UNRESOLVED_STATEMENTS (userId : string) (action : PresenceOp).

Inductive Result :=
  | Ok (s : Session)
  | Err (message : string).

(** The per-statement update of [UPDATE_UNRESOLVED_STATEMENTS]. *)
Definition updateStatementPresence (targetUserId : string) (op : PresenceOp)
    (st : Statement) : Statement :=
  if isStatementResolved st then st
  else match op with
  | Add =>
      if bool_decide (targetUserId ∈ present st) then st
      else {| text := text st; createdBy := createdBy st;
              present := present st ++ [targetUserId];
              responses := responses st |}
  | Remove =>
      if bool_decide (createdBy st = targetUserId) then st
      else {| text := text st; createdBy := createdBy st;
              present := filter (fun id => id <> targetUserId) (present st);
              responses := delete targetUserId (responses st) |}
  end.

Definition respondStatement (userId : string) (response : bool)
    (st : Statement) : Statement :=
  {| text := text st; createdBy := createdBy st; present := present st;
     responses := <[userId := response]> (responses st) |}.

Definition sessionReducer (session : Session) (action : SessionAction) : Result :=
  match action with
  | ADD_STATEMENT t c presentUsers _ _ =>
      let updated :=
        {| statements := statements session ++
             [{| text := t; createdBy := c; present := presentUsers;
                 responses := ∅ |}];
           liveStatementIndex := liveStatementIndex session;
           ratifiedOrder := ratifiedOrder session |} in
      Ok {| statements := statements updated;
            liveStatementIndex :=
              match liveStatementIndex session with
              | Some i => Some i
              | None => selectNextLiveStatementIndex updated
              end;
            ratifiedOrder := ratifiedOrder updated |}
  | RESPOND_TO_STATEMENT statementIndex userId response =>
      if (statementIndex <? 0)%Z || (Z.of_nat (length (statements session)) <=? statementIndex)%Z
      then Err "Invalid statement index"
      else
        let updated :=
          {| statements :=
               imap (fun index st =>
                       if bool_decide (Z.of_nat index = statementIndex)
                       then respondStatement userId response st else st)
                    (statements session);
             liveStatementIndex := liveStatementIndex session;
             ratifiedOrder := ratifiedOrder session |} in
        match nth_Z (statements updated) statementIndex with
        | None => Err "TypeError: cannot read properties of undefined"
        | Some updatedStatement =>
            let isNowResolved := isStatementResolved updatedStatement in
            let newLive :=
              if isNowResolved && bool_decide (liveStatementIndex session = Some statementIndex)
              then selectNextLiveStatementIndex updated
              else liveStatementIndex session in
            Ok {| statements := statements updated;
                  liveStatementIndex := newLive;
                  ratifiedOrder := ratifiedOrder updated |}
        end
  | UPDATE_UNRESOLVED_STATEMENTS targetUserId op =>
      let updated :=
        {| statements := map (updateStatementPresence targetUserId op) (statements session);
           liveStatementIndex := liveStatementIndex session;
           ratifiedOrder := ratifiedOrder session |} in
      let needsNewLiveStatement :=
        match liveStatementIndex session with
        | None => false
        | Some li =>
            match nth_Z (statements updated) li with
            | Some cur => isStatementResolved cur
            | None => false
            end
        end in
      let newLive :=
        if needsNewLiveStatement || bool_decide (liveStatementIndex session = None)
        then selectNextLiveStatementIndex updated
        else liveStatementIndex session in
      Ok {| statements := statements updated;
            liveStatementIndex := newLive;
            ratifiedOrder := ratifiedOrder updated |}
  end.

(** Sessions reachable from the empty session by actions the reducer accepts. *)
Inductive reachable : Session -> Prop :=
  | reachable_init : reachable initializeSession
  | reachable_step s a s' :
      reachable s -> sessionReducer s a = Ok s' -> reachable s'.

(* ------------------------------------------------------------------ *)
(** ** Insertion position ([src/lib/insertStatement.ts]) *)

Inductive InsertType := before | after.

Record InsertPosition := mkInsertPosition {
  ip_type : InsertType;
  ip_index : Z
}.

(** [arr.splice(start, 0, item)] on a copy of [arr], for an integer [start]:
    a negative start counts from the end, a start past the end means the end. *)
Definition splice_insert {A} (l : list A) (start : Z) (item : A) : list A :=
  let len := Z.of_nat (length l) in
  let k := if (start <? 0)%Z then Z.max (len + start) 0 else Z.min start len in
  take (Z.to_nat k) l ++ item :: drop (Z.to_nat k) l.

Definition applyInsertPosition (currentOrder : list Z) (newStatementIndex : Z)
    (insertPosition : option InsertPosition) : list Z :=
  match insertPosition with
  | None => currentOrder ++ [newStatementIndex]
  | Some pos =>
      if bool_decide (length currentOrder = 0%nat) then currentOrder ++ [newStatementIndex]
      else
        let index := ip_index pos in
        if (index <? 0)%Z || (Z.of_nat (length currentOrder) <=? index)%Z
        then currentOrder ++ [newStatementIndex]
        else match ip_type pos with
             | before => splice_insert currentOrder index newStatementIndex
             | after => splice_insert currentOrder (index + 1) newStatementIndex
             end
  end.

(* ------------------------------------------------------------------ *)
(** ** The room authority ([src/party/index.ts]) *)

(** What the room sees of the outside world during one event: the ids of the
    open connections, the two generative-text services ([None]: the call
    failed) and the value of [Math.random() > 0.5]. *)
Record Env := mkEnv {
  env_connections : list string;
  env_negation_service : string -> option string;
  env_insert_service : list string -> string -> option (option InsertPosition);
  env_random : bool
}.

(** [generateNegation] ([src/lib/generateNegation.ts]): the service's
    sentence, or ["Not: " + statement] when it fails. *)
Definition generateNegation (env : Env) (statement : string) : string :=
  match env_negation_service env statement with
  | Some negative_sentence => negative_sentence
  | None => "Not: " +:+ statement
  end.

(** [insertStatement]: no service call for an empty list.  [None] is a
    rejected promise. *)
Definition insertStatement (env : Env) (currentStatements : list string)
    (newStatement : string) : option (option InsertPosition) :=
  match currentStatements with
  | [] => Some None
  | _ => env_insert_service env currentStatements newStatement
  end.

(** Messages the room sends: to one connection, or to all of them. *)
Inductive Outbound :=
  | SendTo (connId : string) (session : Session)
  | Broadcast (session : Session).

Definition validIndex (session : Session) (idx : Z) : bool :=
  (0 <=? idx)%Z && (idx <? Z.of_nat (length (statements session)))%Z.

Definition withRatifiedOrder (session : Session) (order : list Z) : Session :=
  {| statements := statements session;
     liveStatementIndex := liveStatementIndex session;
     ratifiedOrder := order |}.

(** [handleStatementRatified] (lines 307-355). *)
Definition handleStatementRatified (env : Env) (session : Session)
    (statementIndex : Z) : Session :=
  match nth_Z (statements session) statementIndex with
  | None => session
  | Some statement =>
      let currentRatifiedTexts :=
        map (fun idx => default "" (text <$> nth_Z (statements session) idx))
            (filter (fun idx => validIndex session idx) (ratifiedOrder session)) in
      match insertStatement env currentRatifiedTexts (text statement) with
      | Some insertPosition =>
          withRatifiedOrder session
            (applyInsertPosition (ratifiedOrder session) statementIndex insertPosition)
      | None =>
          withRatifiedOrder session (ratifiedOrder session ++ [statementIndex])
      end
  end.

(** Each handler returns the room's [sessionState] afterwards and what it sent.
    A handler that throws is caught by [onMessage]: what it had already stored
    stays, and it sends nothing more. *)
Definition RoomStep : Type := option Session * list Outbound.

(** [handleAddStatement] (lines 167-241). *)
Definition handleAddStatement (env : Env) (sessionState : option Session)
    (t userId : string) : RoomStep :=
  let session := default initializeSession sessionState in
  let presentUsers := filter (fun id => id <> "") (env_connections env) in
  let negation := generateNegation env t in
  let negationFirst := env_random env in
  match sessionReducer session
          (ADD_STATEMENT t userId presentUsers (Some negation) (Some negationFirst)) with
  | Err _ => (Some session, [])
  | Ok updatedSession =>
      let statementIndex := (Z.of_nat (length (statements updatedSession)) - 1)%Z in
      match sessionReducer updatedSession
              (RESPOND_TO_STATEMENT statementIndex userId true) with
      | Err _ => (Some session, [])
      | Ok finalSession =>
          let finalSession' :=
            match nth_Z (statements finalSession) statementIndex with
            | Some statement =>
                if isStatementResolved statement && allAgreed statement
                then handleStatementRatified env finalSession statementIndex
                else finalSession
            | None => finalSession
            end in
          (Some finalSession', [Broadcast finalSession'])
      end
  end.

(** [handleVoteResponse] (lines 243-305). *)
Definition handleVoteResponse (env : Env) (sessionState : option Session)
    (statementIndex : Z) (userId : string) (response : bool) : RoomStep :=
  match sessionState with
  | None => (sessionState, [])
  | Some session =>
      let wasResolved :=
        match nth_Z (statements session) statementIndex with
        | Some st => isStatementResolved st
        | None => false
        end in
      match sessionReducer session (RESPOND_TO_STATEMENT statementIndex userId response) with
      | Err _ => (sessionState, [])
      | Ok updatedSession =>
          let statementAfterVote := nth_Z (statements updatedSession) statementIndex in
          let isNowResolved :=
            match statementAfterVote with Some st => isStatementResolved st | None => false end in
          let allAgreed' :=
            match statementAfterVote with Some st => allAgreed st | None => false end in
          let updatedSession' :=
            if negb wasResolved && isNowResolved && allAgreed'
            then handleStatementRatified env updatedSession statementIndex
            else updatedSession in
          (Some updatedSession', [Broadcast updatedSession'])
      end
  end.

(** The body of the [for (const stmtIndex of unresolvedBefore)] loop of
    [removeUserFromStatements] (lines 401-422). *)
Definition removalLoopBody (env : Env) (updatedSession : Session) (stmtIndex : Z) : Session :=
  match nth_Z (statements updatedSession) stmtIndex with
  | None => updatedSession
  | Some statement =>
      if isStatementResolved statement && allAgreed statement
         && negb (bool_decide (stmtIndex ∈ ratifiedOrder updatedSession))
      then handleStatementRatified env updatedSession stmtIndex
      else updatedSession
  end.

(** The timer body [removeUserFromStatements] (lines 376-441).  The
    [JSON.stringify] comparison is modelled as equality of the sessions. *)
Definition removeUserFromStatements (env : Env) (sessionState : option Session)
    (userId : string) : RoomStep :=
  match sessionState with
  | None => (sessionState, [])
  | Some session =>
      let unresolvedBefore :=
        map fst (filter (fun p => negb (isStatementResolved p.2))
                        (indexed (statements session))) in
      match sessionReducer session (UPDATE_UNRESOLVED_STATEMENTS userId Remove) with
      | Err _ => (sessionState, [])
      | Ok updatedSession =>
          let updatedSession' :=
            foldl (removalLoopBody env) updatedSession unresolvedBefore in
          if bool_decide (updatedSession' = session) then (sessionState, [])
          else (Some updatedSession', [Broadcast updatedSession'])
      end
  end.

(** [onConnect] (lines 20-127); the pending-removal timers are not modelled. *)
Definition onConnect (sessionState : option Session) (connId : string) : RoomStep :=
  let session := default initializeSession sessionState in
  if bool_decide (connId <> "") && bool_decide (statements session <> []) then
    match sessionReducer session (UPDATE_UNRESOLVED_STATEMENTS connId Add) with
    | Ok updatedSession =>
        if bool_decide (updatedSession = session)
        then (Some session, [SendTo connId session])
        else (Some updatedSession, [Broadcast updatedSession; SendTo connId updatedSession])
    | Err _ => (Some session, [])
    end
  else (Some session, [SendTo connId session]).

(** An inbound message after [JSON.parse]: either the parse (or the read of
    [data.type] on [null]) throws, or it yields an envelope with a [type] and a
    payload, modelled by the fields the handlers read. *)
Inductive Payload :=
  | PAddStatement (text userId : string)
  | PVoteResponse (statementIndex : Z) (userId : string) (response : bool)
  | PMissing.

Inductive Inbound :=
  | Unparseable
  | Envelope (type : string) (payload : Payload).

(** [onMessage] (lines 129-165). *)
Definition onMessage (env : Env) (sessionState : option Session)
    (connId : string) (message : Inbound) : RoomStep :=
  match message with
  | Unparseable => (sessionState, [])
  | Envelope type payload =>
      if bool_decide (type = "get_session") then
        match sessionState with
        | Some s => (sessionState, [SendTo connId s])
        | None => (sessionState, [])
        end
      else if bool_decide (type = "add_statement") then
        match payload with
        | PAddStatement t u => handleAddStatement env sessionState t u
        | _ => (Some (default initializeSession sessionState), [])
        end
      else if bool_decide (type = "vote_response") then
        match payload with
        | PVoteResponse i u r => handleVoteResponse env sessionState i u r
        | _ => (sessionState, [])
        end
      else (sessionState, [])
  end.

(* ------------------------------------------------------------------ *)
(** ** Read-only views of a session *)

(** The test of a ratified statement shared by
    [getResolvedStatementsWhereEveryoneAgreed] and the room page:
    [isStatementResolved], [Object.values(responses).length > 0] and every
    response [true]. *)
Definition stillRatified (st : Statement) : bool :=
  isStatementResolved st && bool_decide (0 < size (responses st))%nat && allAgreed st.

(** [getResolvedStatementsWhereEveryoneAgreed] ([src/lib/session.ts], lines
    67-94).  [session.statements[index]] is defined for every index kept by
    the bounds filter, so the [map] is an [omap] that never drops an entry. *)
Definition getResolvedStatementsWhereEveryoneAgreed (s : Session) : list Statement :=
  match ratifiedOrder s with
  | _ :: _ =>
      filter (fun st => stillRatified st)
        (omap (nth_Z (statements s)) (filter (fun idx => validIndex s idx) (ratifiedOrder s)))
  | [] => filter (fun st => stillRatified st) (statements s)
  end.

(** [getLiveStatement] ([src/lib/session.ts], lines 96-100).  For a negative
    index, [statements[i]] is [undefined], here [None] as well. *)
Definition getLiveStatement (s : Session) : option Statement :=
  match liveStatementIndex s with
  | None => None
  | Some i =>
      if (Z.of_nat (length (statements s)) <=? i)%Z then None
      else nth_Z (statements s) i
  end.

(** [ratifiedStatementsWithIndices] of the room page
    ([src/app/room/[roomId]/page.tsx], lines 39-60): the entries of
    [ratifiedOrder] in bounds, paired with their statements, that are still
    ratified.  The page's own resolution test ([responses.length ===
    presentCount]) is [isStatementResolved]. *)
Definition ratifiedStatementsWithIndices (session : option Session) : list (Z * Statement) :=
  match session with
  | None => []
  | Some s =>
      filter (fun p => stillRatified p.2)
        (omap (fun originalIndex => pair originalIndex <$> nth_Z (statements s) originalIndex)
           (filter (fun idx => validIndex s idx) (ratifiedOrder s)))
  end.
(* ------------------------------------------------------------------ *)
(** ** The specification's vocabulary *)

(** §4.2: the number of already-resolved statements of creator [c]. *)
Definition resolvedCountOfCreator (s : Session) (c : string) : nat :=
  length (filter (fun st => isStatementResolved st && bool_decide (createdBy st = c))
                 (statements s)).

(** §4.2: the sort key (resolved count of the creator, creation index). *)
Definition fairKey (s : Session) (i : Z) (st : Statement) : nat * Z :=
  (resolvedCountOfCreator s (createdBy st), i).

Definition lex_le (a b : nat * Z) : Prop :=
  (a.1 < b.1)%nat \/ (a.1 = b.1 /\ (a.2 <= b.2)%Z).

(** A statement is unresolved at index [i] of the session. *)
Definition unresolvedAt (s : Session) (i : Z) : Prop :=
  exists st, nth_Z (statements s) i = Some st /\ isStatementResolved st = false.

(** Invariant 4 of §3 as the spec words it. *)
Definition liveInvariant (s : Session) : Prop :=
  (forall i, liveStatementIndex s = Some i -> unresolvedAt s i) /\
  (liveStatementIndex s = None <->
     forall i st, nth_Z (statements s) i = Some st -> isStatementResolved st = true).

(** Several reducer actions in a row. *)
Fixpoint runActions (s : Session) (acts : list SessionAction) : Result :=
  match acts with
  | [] => Ok s
  | a :: rest =>
      match sessionReducer s a with
      | Ok s' => runActions s' rest
      | Err e => Err e
      end
  end.

(* ------------------------------------------------------------------ *)
(** ** Concrete sessions *)

(** A room whose only connection is [u1]; both services fail. *)
Definition soloEnv : Env := mkEnv ["u1"] (fun _ => None) (fun _ _ => None) false.

(** [u1] adds a statement (ratified at once, as [u1] is alone), then changes
    their vote to [false]. *)
Definition soloAdded : option Session :=
  (onMessage soloEnv None "u1" (Envelope "add_statement" (PAddStatement "a" "u1"))).1.
Definition soloRevoked : option Session :=
  (onMessage soloEnv soloAdded "u1" (Envelope "vote_response" (PVoteResponse 0 "u1" false))).1.

(** One statement by [u1] with [u1] alone present, answered by [u1] (which
    resolves it and clears the live index) and then by [u2], who is not
    present. *)
Definition reopenActions : list SessionAction :=
  [ADD_STATEMENT "a" "u1" ["u1"] None None;
   RESPOND_TO_STATEMENT 0 "u1" true;
   RESPOND_TO_STATEMENT 0 "u2" true].

Definition reopenedSession : Session :=
  {| statements := [{| text := "a"; createdBy := "u1"; present := ["u1"];
                       responses := <["u2" := true]> (<["u1" := true]> ∅) |}];
     liveStatementIndex := None;
     ratifiedOrder := [] |}.

(** The first scenario of §8: one statement by [u1], with [u1] and [u2]. *)
Definition moonSession : Session :=
  {| statements := [{| text := "We should go to the moon!"; createdBy := "u1";
                       present := ["u1"; "u2"]; responses := ∅ |}];
     liveStatementIndex := Some 0%Z;
     ratifiedOrder := [] |}.

(** Two present participants; [u1] and the absent [u3] answered, so the
    statement counts as resolved. *)
Definition outsiderActions : list SessionAction :=
  [ADD_STATEMENT "a" "u1" ["u1"; "u2"] None None;
   RESPOND_TO_STATEMENT 0 "u1" true;
   RESPOND_TO_STATEMENT 0 "u3" true].

Definition outsiderSession : Session :=
  {| statements := [{| text := "a"; createdBy := "u1"; present := ["u1"; "u2"];
                       responses := <["u3" := true]> (<["u1" := true]> ∅) |}];
     liveStatementIndex := None;
     ratifiedOrder := [] |}.

(** Creator B has one resolved statement and one open one; creator A has one
    open one, created last. *)
Definition fairStatementB0 : Statement :=
  {| text := "x"; createdBy := "B"; present := ["B"]; responses := <["B" := true]> ∅ |}.
Definition fairStatementB1 : Statement :=
  {| text := "y"; createdBy := "B"; present := ["B"; "A"]; responses := <["B" := true]> ∅ |}.
Definition fairStatementA : Statement :=
  {| text := "z"; createdBy := "A"; present := ["A"; "B"]; responses := <["A" := true]> ∅ |}.
Definition fairSession : Session :=
  {| statements := [fairStatementB0; fairStatementB1; fairStatementA];
     liveStatementIndex := Some 1%Z;
     ratifiedOrder := [0%Z] |}.

(** [moonSession] after [u2] votes [true] on its statement. *)
Definition moonVoted : Session :=
  match sessionReducer moonSession (RESPOND_TO_STATEMENT 0 "u2" true) with
  | Ok s => s
  | Err _ => moonSession
  end.

(** Two ratified statements of [u1], ordered last first. *)
Definition agreedTwiceSession : Session :=
  {| statements :=
       [{| text := "a"; createdBy := "u1"; present := ["u1"]; responses := <["u1" := true]> ∅ |};
        {| text := "b"; createdBy := "u1"; present := ["u1"]; responses := <["u1" := true]> ∅ |}];
     liveStatementIndex := None;
     ratifiedOrder := [1%Z; 0%Z] |}.

(** A room of [u1] alone whose insertion service puts every new statement
    first. *)
Definition eagerEnv : Env :=
  mkEnv ["u1"] (fun _ => None) (fun _ _ => Some (Some (mkInsertPosition before 0))) false.

(* ------------------------------------------------------------------ *)
(** ** Room transitions and [ratifiedOrder] *)

(** Every event the room authority processes, with the session it stores
    afterwards. *)
Inductive roomStep : option Session -> option Session -> Prop :=
  | roomStep_message env connId message st :
      roomStep st (onMessage env st connId message).1
  | roomStep_connect connId st :
      roomStep st (onConnect st connId).1
  | roomStep_remove env userId st :
      roomStep st (removeUserFromStatements env st userId).1.

Inductive roomReachable : option Session -> Prop :=
  | roomReachable_init : roomReachable None
  | roomReachable_step st st' :
      roomReachable st -> roomStep st st' -> roomReachable st'.

Definition orderOf (st : option Session) : list Z :=
  match st with Some s => ratifiedOrder s | None => [] end.

(** §3 invariant 2: resolved, and every response is [true]. *)
Definition ratifiedAt (s : Session) (x : Z) : Prop :=
  exists st, nth_Z (statements s) x = Some st /\ isStatementResolved st = true /\
    map_Forall (fun _ r => r = true) (responses st).

Definition ratifiedIn (st : option Session) (x : Z) : Prop :=
  match st with Some s => ratifiedAt s x | None => False end.

Definition validIn (st : option Session) (x : Z) : Prop :=
  match st with Some s => exists stmt, nth_Z (statements s) x = Some stmt | None => False end.

(** A statement with at least as many responses as present participants. *)
Definition covered (st : Statement) : Prop :=
  (length (present st) <= size (responses st))%nat.

Definition orderInvariant (s : Session) : Prop :=
  NoDup (ratifiedOrder s) /\
  forall x, x ∈ ratifiedOrder s ->
    exists st, nth_Z (statements s) x = Some st /\ covered st.

Definition roomInvariant (st : option Session) : Prop :=
  match st with Some s => orderInvariant s | None => True end.

(** What one step does to [ratifiedOrder]: it keeps every entry and adds only
    statements that are ratified. *)
Definition orderGrowsByRatified (st st' : option Session) : Prop :=
  (forall x, x ∈ orderOf st -> x ∈ orderOf st') /\
  (forall x, x ∈ orderOf st' -> x ∉ orderOf st -> ratifiedIn st' x).

(** The unresolved statements with their indices. *)
Definition unresolvedIndexed (s : Session) : list (Z * Statement) :=
  filter (fun p => negb (isStatementResolved p.2)) (indexed (statements s)).

(** §3 invariant 4, first half: the live index names an unresolved statement. *)
Definition liveUnresolved (s : Session) : Prop :=
  forall i, liveStatementIndex s = Some i -> unresolvedAt s i.

(* ================================================================== *)
(** * Proofs *)

(** ** Sorting by insertion *)

Section InsertionSort.
Context {A : Type} (before : A -> A -> bool) (R : A -> A -> Prop).
Hypothesis before_R : forall x y, before x y = true -> R x y.
Hypothesis not_before_R : forall x y, before x y = false -> R y x.
Hypothesis R_trans : forall x y z, R x y -> R y z -> R x z.

Lemma R_refl x : R x x.
Proof. destruct (before x x) eqn:E; eauto. Qed.

Lemma insert_by_perm x l : insert_by before x l ≡ₚ x :: l.
Proof.
  induction l as [|y l IH]; simpl; [done|].
  destruct (before x y); [done|].
  rewrite IH. apply Permutation_swap.
Qed.

Lemma sort_by_perm l : sort_by before l ≡ₚ l.
Proof.
  induction l as [|x l IH]; simpl; [done|].
  unfold sort_by in *. simpl. rewrite insert_by_perm, IH. done.
Qed.

Lemma sort_by_head l h t :
  sort_by before l = h :: t -> forall y, y ∈ l -> R h y.
Proof.
  revert h t. induction l as [|x l IH]; intros h t Hs y Hy;
    [by apply not_elem_of_nil in Hy|].
  unfold sort_by in Hs, IH. simpl in Hs.
  destruct (foldr (insert_by before) [] l) as [|h' t'] eqn:E.
  - simpl in Hs. injection Hs as <- <-.
    assert (l = []) as ->.
    { apply Permutation_nil_r. rewrite <- (sort_by_perm l).
      unfold sort_by. rewrite E. done. }
    apply list_elem_of_singleton in Hy as ->. apply R_refl.
  - simpl in Hs. destruct (before x h') eqn:B; injection Hs as <- <-.
    + apply elem_of_cons in Hy as [-> | Hy]; [apply R_refl|].
      eapply R_trans; [by apply before_R|]. by eapply IH.
    + apply elem_of_cons in Hy as [-> | Hy]; [by apply not_before_R|].
      by eapply IH.
Qed.
End InsertionSort.

(** ** Positions and the scheduler's counts *)

Lemma elem_of_indexed {A} (l : list A) i x :
  (i, x) ∈ indexed l <-> (0 <= i)%Z /\ nth_Z l i = Some x.
Proof.
  unfold indexed, nth_Z. rewrite elem_of_lookup_imap. split.
  - intros (n & y & [= -> ->] & Hn).
    destruct (Z.ltb_spec (Z.of_nat n) 0); [lia|]. rewrite Nat2Z.id. auto.
  - intros [Hi Hl]. destruct (Z.ltb_spec i 0); [lia|].
    exists (Z.to_nat i), x. rewrite Z2Nat.id by lia. auto.
Qed.

Lemma resolvedCount_foldl (c : string) (l : list Statement) (m0 : gmap string nat) :
  default 0 (foldl (fun m st => <[createdBy st := default 0 (m !! createdBy st) + 1]> m)
                   m0 (filter (fun st => isStatementResolved st) l) !! c)
  = (default 0 (m0 !! c)
     + length (filter (fun st => isStatementResolved st && bool_decide (createdBy st = c)) l))%nat.
Proof.
  revert m0. induction l as [|st l IH]; intros m0; simpl; [lia|].
  rewrite !filter_cons.
  destruct (isStatementResolved st) eqn:R; simpl.
  - rewrite IH. case_bool_decide as Hc; simpl.
    + subst c. rewrite lookup_insert_eq. simpl. lia.
    + rewrite lookup_insert_ne by congruence. done.
  - done.
Qed.

Lemma creatorCount_spec (s : Session) (c : string) :
  creatorCount (resolvedCountByCreator s) c = Z.of_nat (resolvedCountOfCreator s c).
Proof.
  unfold creatorCount, resolvedCountByCreator, resolvedCountOfCreator.
  rewrite resolvedCount_foldl. rewrite lookup_empty. done.
Qed.

Lemma elem_of_unresolvedIndexed s i st :
  (i, st) ∈ unresolvedIndexed s <->
  nth_Z (statements s) i = Some st /\ isStatementResolved st = false.
Proof.
  unfold unresolvedIndexed. rewrite list_elem_of_filter, elem_of_indexed.
  simpl. rewrite Is_true_true, negb_true_iff. unfold nth_Z.
  destruct (Z.ltb_spec i 0); naive_solver lia.
Qed.

Lemma cmp_lex (s : Session) (a b : Z * Statement) :
  ((cmpStatements (resolvedCountByCreator s) a b <=? 0)%Z = true ->
     lex_le (fairKey s a.1 a.2) (fairKey s b.1 b.2)) /\
  ((cmpStatements (resolvedCountByCreator s) a b <=? 0)%Z = false ->
     lex_le (fairKey s b.1 b.2) (fairKey s a.1 a.2)).
Proof.
  unfold cmpStatements, fairKey, lex_le. simpl.
  rewrite !creatorCount_spec.
  destruct (Z.eqb_spec (Z.of_nat (resolvedCountOfCreator s (createdBy a.2)))
                       (Z.of_nat (resolvedCountOfCreator s (createdBy b.2)))); simpl;
    split; intros H; apply Z.leb_le in H || apply Z.leb_gt in H; lia.
Qed.

Lemma lex_le_trans x y z : lex_le x y -> lex_le y z -> lex_le x z.
Proof. unfold lex_le. lia. Qed.

Lemma selectNext_None_iff (s : Session) :
  selectNextLiveStatementIndex s = None <->
  forall i st, nth_Z (statements s) i = Some st -> isStatementResolved st = true.
Proof.
  unfold selectNextLiveStatementIndex. cbv zeta.
  fold (unresolvedIndexed s).
  destruct (unresolvedIndexed s) as [|p U] eqn:EU.
  - split; [intros _|done]. intros i st Hi.
    destruct (isStatementResolved st) eqn:R; [done|].
    assert ((i, st) ∈ unresolvedIndexed s) as Hin
      by (apply elem_of_unresolvedIndexed; auto).
    rewrite EU in Hin. by apply not_elem_of_nil in Hin.
  - split; [by destruct (sort_by _ _)|].
    intros Hall. exfalso. destruct p as [i st].
    assert ((i, st) ∈ unresolvedIndexed s) as Hin by (rewrite EU; left).
    apply elem_of_unresolvedIndexed in Hin as [Hi Hr].
    rewrite (Hall i st Hi) in Hr. discriminate.
Qed.

Lemma selectNext_Some (s : Session) (i : Z) :
  selectNextLiveStatementIndex s = Some i ->
  exists st, nth_Z (statements s) i = Some st /\ isStatementResolved st = false /\
    forall j st', nth_Z (statements s) j = Some st' -> isStatementResolved st' = false ->
      lex_le (fairKey s i st) (fairKey s j st').
Proof.
  unfold selectNextLiveStatementIndex. cbv zeta.
  fold (unresolvedIndexed s).
  destruct (unresolvedIndexed s) as [|p U] eqn:EU; [discriminate|].
  set (before := fun a b => (cmpStatements (resolvedCountByCreator s) a b <=? 0)%Z).
  destruct (sort_by before (p :: U)) as [|[h hs] t] eqn:ES.
  { pose proof (sort_by_perm before (p :: U)) as HP. rewrite ES in HP.
    symmetry in HP. apply Permutation_nil_r in HP. discriminate. }
  intros [= <-].
  assert ((h, hs) ∈ unresolvedIndexed s) as Hin.
  { rewrite EU, <- (sort_by_perm before (p :: U)), ES. left. }
  apply elem_of_unresolvedIndexed in Hin as [Hh Hr].
  exists hs. split; [done|]. split; [done|].
  intros j st' Hj Hr'.
  assert ((j, st') ∈ p :: U) as Hj'.
  { rewrite <- EU. by apply elem_of_unresolvedIndexed. }
  apply (sort_by_head before (fun a b => lex_le (fairKey s a.1 a.2) (fairKey s b.1 b.2))
           (fun a b H => proj1 (cmp_lex s a b) H) (fun a b H => proj2 (cmp_lex s a b) H)
           (fun x y z => lex_le_trans _ _ _) (p :: U) (h, hs) t ES (j, st') Hj').
Qed.

(** ** C3: the scheduler picks the fairest unresolved statement *)

(** C3: [selectNextLiveStatementIndex] returns [None] exactly when no
    statement is unresolved; otherwise it returns the index of an unresolved
    statement whose key (resolved statements of its creator, creation index) is
    lexicographically minimal among all unresolved statements.  In particular,
    when the only unresolved statements are one by a creator A with no resolved
    statement and one by a creator B with one, it picks A's. *)
Theorem selectNextLiveStatementIndex_fairness (s : Session) :
  (selectNextLiveStatementIndex s = None <->
     forall i st, nth_Z (statements s) i = Some st -> isStatementResolved st = true) /\
  (forall i, selectNextLiveStatementIndex s = Some i ->
     exists st, nth_Z (statements s) i = Some st /\ isStatementResolved st = false /\
       forall j st', nth_Z (statements s) j = Some st' -> isStatementResolved st' = false ->
         lex_le (fairKey s i st) (fairKey s j st')) /\
  (forall (creatorA creatorB : string) (ia ib : Z) (stA stB : Statement),
     nth_Z (statements s) ia = Some stA -> nth_Z (statements s) ib = Some stB ->
     createdBy stA = creatorA -> createdBy stB = creatorB ->
     isStatementResolved stA = false -> isStatementResolved stB = false ->
     resolvedCountOfCreator s creatorA = 0%nat ->
     resolvedCountOfCreator s creatorB = 1%nat ->
     (forall j st, nth_Z (statements s) j = Some st -> isStatementResolved st = false ->
        j = ia \/ j = ib) ->
     selectNextLiveStatementIndex s = Some ia).
Proof.
  split; [apply selectNext_None_iff|]. split; [apply selectNext_Some|].
  intros A B ia ib stA stB HA HB CA CB RA RB NA NB Honly.
  destruct (selectNextLiveStatementIndex s) as [i|] eqn:E.
  - destruct (selectNext_Some s i E) as (st & Hi & Hr & Hmin).
    destruct (Honly i st Hi Hr) as [-> | ->]; [done|].
    rewrite HB in Hi. injection Hi as <-.
    specialize (Hmin ia stA HA RA). unfold lex_le, fairKey in Hmin. simpl in Hmin.
    rewrite CA, CB, NA, NB in Hmin. lia.
  - apply selectNext_None_iff with (i := ia) (st := stA) in E; [|done].
    congruence.
Qed.

Lemma selectNextLiveStatementIndex_fairness_witness :
  selectNextLiveStatementIndex fairSession = Some 2%Z.
Proof.
  destruct (selectNextLiveStatementIndex_fairness fairSession) as (_ & _ & H).
  apply (H "A" "B" 2%Z 1%Z fairStatementA fairStatementB1);
    [reflexivity .. |].
  intros j st Hj Hr. unfold nth_Z in Hj.
  destruct (Z.ltb_spec j 0); [discriminate|].
  destruct (Z.to_nat j) as [|[|[|n]]] eqn:Ej; simpl in Hj.
  - injection Hj as <-. vm_compute in Hr. discriminate.
  - right. lia.
  - left. lia.
  - destruct n; discriminate.
Defined.

(** ** Reading statements by index *)

Lemma nth_Z_map {A B} (f : A -> B) (l : list A) i :
  nth_Z (map f l) i = f <$> nth_Z l i.
Proof. unfold nth_Z. destruct (i <? 0)%Z; [done|]. apply list_lookup_fmap. Qed.

Lemma nth_Z_app_l {A} (l l' : list A) i x :
  nth_Z l i = Some x -> nth_Z (l ++ l') i = Some x.
Proof. unfold nth_Z. destruct (i <? 0)%Z; [done|]. apply lookup_app_l_Some. Qed.

Lemma nth_Z_Some_range {A} (l : list A) i x :
  nth_Z l i = Some x -> (0 <= i < Z.of_nat (length l))%Z.
Proof.
  unfold nth_Z. destruct (Z.ltb_spec i 0); [done|].
  intros Hl%lookup_lt_Some. lia.
Qed.

Lemma nth_Z_in_range {A} (l : list A) i :
  (0 <= i < Z.of_nat (length l))%Z -> exists x, nth_Z l i = Some x.
Proof.
  intros Hi. unfold nth_Z. destruct (Z.ltb_spec i 0); [lia|].
  apply lookup_lt_is_Some_2. lia.
Qed.

(** The statements after [RESPOND_TO_STATEMENT k]. *)
Lemma nth_Z_respond (l : list Statement) k u r i :
  nth_Z (imap (fun index st =>
                 if bool_decide (Z.of_nat index = k)
                 then respondStatement u r st else st) l) i =
  (if bool_decide (i = k) then respondStatement u r else id) <$> nth_Z l i.
Proof.
  unfold nth_Z. destruct (Z.ltb_spec i 0); [done|].
  rewrite list_lookup_imap. destruct (l !! Z.to_nat i); simpl; [|done].
  rewrite Z2Nat.id by lia. by case_bool_decide.
Qed.

Lemma length_respond (l : list Statement) k u r :
  length (imap (fun index st =>
                  if bool_decide (Z.of_nat index = k)
                  then respondStatement u r st else st) l) = length l.
Proof. apply length_imap. Qed.

Lemma runActions_reachable s acts s' :
  reachable s -> runActions s acts = Ok s' -> reachable s'.
Proof.
  revert s. induction acts as [|a acts IH]; simpl; intros s Hs H.
  - by injection H as <-.
  - destruct (sessionReducer s a) as [s1|e] eqn:E; [|discriminate].
    apply (IH s1); [by eapply reachable_step|done].
Qed.

(** ** C1: the live statement is an unresolved one *)

Lemma selectNext_unresolved s i :
  selectNextLiveStatementIndex s = Some i -> unresolvedAt s i.
Proof. intros (st & H1 & H2 & _)%selectNext_Some. by exists st. Qed.

Lemma sessionReducer_liveUnresolved s a s' :
  liveUnresolved s -> sessionReducer s a = Ok s' -> liveUnresolved s'.
Proof.
  intros Hinv Hred i Hi. destruct a as [t c pu neg nf | k u r | u op]; simpl in Hred.
  - injection Hred as <-. simpl in Hi.
    destruct (liveStatementIndex s) as [j|] eqn:Hl.
    + injection Hi as <-. destruct (Hinv j Hl) as (st & Hst & Hr).
      exists st. split; [|done]. simpl. by apply nth_Z_app_l.
    + by apply selectNext_unresolved in Hi.
  - destruct (_ || _); [discriminate|].
    destruct (nth_Z _ k) as [upd|] eqn:Hupd; [|discriminate].
    injection Hred as <-. simpl in Hi.
    destruct (isStatementResolved upd && bool_decide (liveStatementIndex s = Some k)) eqn:Hc.
    + by apply selectNext_unresolved in Hi.
    + destruct (Hinv i Hi) as (st & Hst & Hr). unfold unresolvedAt. simpl.
      rewrite nth_Z_respond, Hst. simpl.
      destruct (decide (i = k)) as [->|Hik];
        [rewrite bool_decide_true by done|rewrite bool_decide_false by done; by exists st].
      rewrite nth_Z_respond, Hst in Hupd. simpl in Hupd.
      rewrite bool_decide_true in Hupd by done. injection Hupd as <-.
      exists (respondStatement u r st). split; [done|].
      rewrite Hi, bool_decide_true, andb_true_r in Hc by done. done.
  - injection Hred as <-. simpl in Hi.
    destruct (liveStatementIndex s) as [li|] eqn:Hl; simpl in Hi.
    + destruct (Hinv li Hl) as (st & Hst & Hr).
      rewrite nth_Z_map, Hst in Hi. simpl in Hi.
      destruct (isStatementResolved (updateStatementPresence u op st)) eqn:Hc; simpl in Hi.
      * by apply selectNext_unresolved in Hi.
      * injection Hi as <-. exists (updateStatementPresence u op st).
        simpl. rewrite nth_Z_map, Hst. done.
    + by apply selectNext_unresolved in Hi.
Qed.

(** C1 (as amended): in every session reachable from the empty one through
    accepted reducer actions, [liveStatementIndex], when set, is the index of an
    existing unresolved statement; hence it is [null] when no statement is
    unresolved. *)
Theorem reachable_live_unresolved (s : Session) (Hs : reachable s) :
  liveUnresolved s /\
  ((forall i st, nth_Z (statements s) i = Some st -> isStatementResolved st = true) ->
   liveStatementIndex s = None).
Proof.
  assert (Hinv : liveUnresolved s).
  { induction Hs as [|s a s' Hs IH Hred].
    - intros i Hi. discriminate.
    - by eapply sessionReducer_liveUnresolved. }
  split; [done|]. intros Hall.
  destruct (liveStatementIndex s) as [i|] eqn:Hl; [|done].
  destruct (Hinv i Hl) as (st & Hst & Hr). rewrite (Hall i st Hst) in Hr. discriminate.
Qed.

Lemma reachable_live_unresolved_witness : unresolvedAt moonSession 0%Z.
Proof.
  apply (reachable_live_unresolved moonSession).
  - apply (runActions_reachable initializeSession
             [ADD_STATEMENT "We should go to the moon!" "u1" ["u1"; "u2"] None None]);
      [constructor | vm_compute; reflexivity].
  - reflexivity.
Defined.

(** C1, counterexample: the converse direction of invariant 4 fails.  After
    [reopenActions] the statement is unresolved again (two responses, one
    present participant) while [liveStatementIndex] is [null]. *)
Lemma reachable_live_invariant_fails :
  ~ (forall s, reachable s -> liveInvariant s).
Proof.
  intros H.
  assert (Hr : reachable reopenedSession).
  { apply (runActions_reachable initializeSession reopenActions);
      [constructor | vm_compute; reflexivity]. }
  destruct (H _ Hr) as [_ Hiff].
  assert (Hall := proj1 Hiff eq_refl).
  specialize (Hall 0%Z _ eq_refl). vm_compute in Hall. discriminate.
Qed.

(** ** C5: [RESPOND_TO_STATEMENT] validates its index *)

Lemma respond_Ok s i u r :
  (0 <= i < Z.of_nat (length (statements s)))%Z ->
  exists s', sessionReducer s (RESPOND_TO_STATEMENT i u r) = Ok s' /\
    statements s' =
      imap (fun index st => if bool_decide (Z.of_nat index = i)
                            then respondStatement u r st else st) (statements s).
Proof.
  intros Hi. simpl.
  destruct (Z.ltb_spec i 0); [lia|]. destruct (Z.leb_spec (Z.of_nat (length (statements s))) i); [lia|].
  simpl. rewrite nth_Z_respond.
  destruct (nth_Z_in_range (statements s) i Hi) as [st ->]. simpl.
  eexists. split; reflexivity.
Qed.

(** C5: for every session, also the empty one, [RESPOND_TO_STATEMENT] with an
    index outside [[0, |statements|)] fails with ["Invalid statement index"],
    and the room's vote handler then keeps its session and sends nothing; with
    an index inside that range the reducer succeeds. *)
Theorem respond_index_validation (s : Session) (i : Z) (u : string) (r : bool) :
  (((i < 0)%Z \/ (Z.of_nat (length (statements s)) <= i)%Z) ->
     sessionReducer s (RESPOND_TO_STATEMENT i u r) = Err "Invalid statement index" /\
     forall env, handleVoteResponse env (Some s) i u r = (Some s, [])) /\
  ((0 <= i < Z.of_nat (length (statements s)))%Z ->
     exists s', sessionReducer s (RESPOND_TO_STATEMENT i u r) = Ok s').
Proof.
  split.
  - intros Hout.
    assert (Hred : sessionReducer s (RESPOND_TO_STATEMENT i u r) = Err "Invalid statement index").
    { simpl. destruct Hout as [Hout|Hout].
      - apply Z.ltb_lt in Hout. by rewrite Hout.
      - apply Z.leb_le in Hout. by rewrite Hout, orb_true_r. }
    split; [done|]. intros env. unfold handleVoteResponse. rewrite Hred. done.
  - intros Hi. destruct (respond_Ok s i u r Hi) as (s' & H & _). eauto.
Qed.

(** ** C6: the creator of a statement is never removed from it *)

Lemma updatePresence_remove_creator (u : string) (st : Statement) :
  createdBy (updateStatementPresence u Remove st) = createdBy st /\
  (createdBy st ∈ present st -> createdBy st ∈ present (updateStatementPresence u Remove st)) /\
  responses (updateStatementPresence u Remove st) !! createdBy st = responses st !! createdBy st.
Proof.
  unfold updateStatementPresence.
  destruct (isStatementResolved st); [done|].
  case_bool_decide as Hc; [done|]. simpl.
  split; [done|]. split.
  - intros Hin. apply list_elem_of_filter. done.
  - by rewrite lookup_delete_ne.
Qed.

(** C6: after any sequence of [UPDATE_UNRESOLVED_STATEMENTS u Remove] actions
    (for any users [us], creators included), every statement keeps its creator,
    its creator stays in [present] if it was there, and the creator's entry in
    [responses] is unchanged. *)
Theorem creator_permanence (s : Session) (us : list string) :
  exists s', runActions s (map (fun u => UPDATE_UNRESOLVED_STATEMENTS u Remove) us) = Ok s' /\
    length (statements s') = length (statements s) /\
    forall i st, nth_Z (statements s) i = Some st ->
      exists st', nth_Z (statements s') i = Some st' /\
        createdBy st' = createdBy st /\
        (createdBy st ∈ present st -> createdBy st ∈ present st') /\
        responses st' !! createdBy st = responses st !! createdBy st.
Proof.
  revert s. induction us as [|u us IH]; intros s; simpl.
  - exists s. split; [done|]. split; [done|]. intros i st Hst. exists st. auto.
  - set (s1 := {| statements := map (updateStatementPresence u Remove) (statements s);
                  liveStatementIndex := _; ratifiedOrder := ratifiedOrder s |}).
    destruct (IH s1) as (s' & Hrun & Hlen & Hkeep).
    exists s'. split; [exact Hrun|]. split.
    + rewrite Hlen. simpl. apply length_map.
    + intros i st Hst.
      destruct (Hkeep i (updateStatementPresence u Remove st)) as (st' & H1 & H2 & H3 & H4).
      { simpl. rewrite nth_Z_map, Hst. done. }
      destruct (updatePresence_remove_creator u st) as (E1 & E2 & E3).
      exists st'. split; [done|]. rewrite H2, E1 in *. split; [done|]. split.
      * intros Hin. apply H3. by apply E2.
      * by rewrite H4, E3.
Qed.

(** ** C7: adding a participant who is already present *)

Lemma updatePresence_add_present (u : string) (st : Statement) :
  (isStatementResolved st = false -> u ∈ present st) ->
  updateStatementPresence u Add st = st.
Proof.
  intros H. unfold updateStatementPresence.
  destruct (isStatementResolved st) eqn:R; [done|].
  rewrite bool_decide_true by auto. done.
Qed.

(** C7 (as amended): [UPDATE_UNRESOLVED_STATEMENTS u Add] for a participant
    already present in every unresolved statement leaves the statements and
    [ratifiedOrder] unchanged, and returns a session equal to the input whenever
    that session satisfies invariant 4 (the live index is set exactly when some
    statement is unresolved, and then names one).  Otherwise the scheduler is
    re-run and [liveStatementIndex] may change. *)
Theorem presence_add_idempotent (s : Session) (u : string)
    (Hpresent : forall st, st ∈ statements s -> isStatementResolved st = false -> u ∈ present st) :
  exists s', sessionReducer s (UPDATE_UNRESOLVED_STATEMENTS u Add) = Ok s' /\
    statements s' = statements s /\ ratifiedOrder s' = ratifiedOrder s /\
    (liveInvariant s -> s' = s).
Proof.
  assert (Hmap : map (updateStatementPresence u Add) (statements s) = statements s).
  { rewrite <- (map_id (statements s)) at 2. apply map_ext_in.
    intros st Hin. apply updatePresence_add_present, Hpresent.
    by apply list_elem_of_In. }
  simpl. rewrite Hmap. eexists. split; [reflexivity|]. simpl.
  split; [done|]. split; [done|].
  intros [Hlive Hiff]. destruct s as [sts [li|] ord]; simpl in *.
  - destruct (Hlive li eq_refl) as (st & Hst & Hr). simpl in Hst.
    rewrite Hst, Hr. done.
  - assert (Hall := proj1 Hiff eq_refl).
    rewrite (proj2 (selectNext_None_iff {| statements := sts; liveStatementIndex := None;
                                           ratifiedOrder := ord |}) Hall).
    done.
Qed.

Lemma presence_add_idempotent_witness :
  exists s', sessionReducer moonSession (UPDATE_UNRESOLVED_STATEMENTS "u2" Add) = Ok s' /\
    s' = moonSession.
Proof.
  destruct (presence_add_idempotent moonSession "u2") as (s' & H1 & _ & _ & H4).
  - intros st Hst _. simpl in Hst. apply list_elem_of_singleton in Hst as ->.
    apply list_elem_of_In. simpl. auto.
  - exists s'. split; [exact H1|]. apply H4.
    split.
    + intros i Hi. injection Hi as <-. eexists. split; [reflexivity|]. reflexivity.
    + split; [discriminate|]. intros Hall. specialize (Hall 0%Z _ eq_refl). discriminate.
Defined.

(** C7, counterexample: in the reachable [reopenedSession], [u1] is present in
    the only (unresolved) statement, yet adding [u1] sets
    [liveStatementIndex] from [null] to [0]. *)
Lemma presence_add_changes_session :
  ~ (forall s u, reachable s ->
       (forall st, st ∈ statements s -> isStatementResolved st = false -> u ∈ present st) ->
       sessionReducer s (UPDATE_UNRESOLVED_STATEMENTS u Add) = Ok s).
Proof.
  intros H.
  assert (Hr : reachable reopenedSession).
  { apply (runActions_reachable initializeSession reopenActions);
      [constructor | vm_compute; reflexivity]. }
  assert (Hp : forall st, st ∈ statements reopenedSession ->
                isStatementResolved st = false -> "u1" ∈ present st).
  { intros st Hst _. simpl in Hst. apply list_elem_of_singleton in Hst as ->.
    apply list_elem_of_In. simpl. auto. }
  specialize (H reopenedSession "u1" Hr Hp).
  vm_compute in H. congruence.
Qed.

(** ** C10: votes are accepted from anyone, also after resolution *)

(** C10 (as amended): for a valid index, [RESPOND_TO_STATEMENT] succeeds for
    any participant, present or not, resolved statement or not; it records the
    response and leaves [present] unchanged.  When a participant who has no
    response yet votes on a resolved statement, the response count becomes
    [|present| + 1] and the statement is unresolved afterwards. *)
Theorem respond_any_participant (s : Session) (i : Z) (u : string) (r : bool)
    (Hi : (0 <= i < Z.of_nat (length (statements s)))%Z) :
  exists s', sessionReducer s (RESPOND_TO_STATEMENT i u r) = Ok s' /\
    forall st, nth_Z (statements s) i = Some st ->
      exists st', nth_Z (statements s') i = Some st' /\
        present st' = present st /\ responses st' !! u = Some r /\
        (isStatementResolved st = true -> responses st !! u = None ->
           size (responses st') = S (length (present st)) /\
           isStatementResolved st' = false).
Proof.
  destruct (respond_Ok s i u r Hi) as (s' & Hred & Hsts).
  exists s'. split; [done|]. intros st Hst.
  exists (respondStatement u r st). rewrite Hsts, nth_Z_respond, Hst. simpl.
  rewrite bool_decide_true by done. split; [done|]. split; [done|].
  split; [by rewrite lookup_insert_eq|].
  intros Hres Hnone. unfold isStatementResolved in *. simpl.
  apply bool_decide_eq_true in Hres.
  rewrite map_size_insert_None by done. split; [lia|].
  apply bool_decide_eq_false. lia.
Qed.

Lemma respond_any_participant_witness :
  exists s', sessionReducer moonSession (RESPOND_TO_STATEMENT 0 "u3" false) = Ok s'.
Proof.
  destruct (respond_any_participant moonSession 0%Z "u3" false) as (s' & H & _).
  - simpl. lia.
  - exists s'. exact H.
Defined.

(** C10, counterexample: in the reachable [outsiderSession] the statement is
    resolved with responses from [u1] and the absent [u3]; a new vote by [u3]
    (not present) leaves the response count equal to the present count, so the
    statement stays resolved. *)
Lemma outsider_revote_stays_resolved :
  ~ (forall s i u r st s', reachable s ->
       nth_Z (statements s) i = Some st -> isStatementResolved st = true ->
       u ∉ present st ->
       sessionReducer s (RESPOND_TO_STATEMENT i u r) = Ok s' ->
       exists st', nth_Z (statements s') i = Some st' /\
         (length (present st') < size (responses st'))%nat /\
         isStatementResolved st' = false).
Proof.
  intros H.
  assert (Hr : reachable outsiderSession).
  { apply (runActions_reachable initializeSession outsiderActions);
      [constructor | vm_compute; reflexivity]. }
  set (s' := match sessionReducer outsiderSession (RESPOND_TO_STATEMENT 0 "u3" true) with
             | Ok x => x | Err _ => outsiderSession end).
  assert (Hred : sessionReducer outsiderSession (RESPOND_TO_STATEMENT 0 "u3" true) = Ok s')
    by (vm_compute; reflexivity).
  assert (Hnotin : "u3" ∉ ["u1"; "u2"]).
  { rewrite list_elem_of_In. simpl. intros [H1|[H1|[]]]; discriminate. }
  destruct (H outsiderSession 0%Z "u3" true _ s' Hr eq_refl
              ltac:(vm_compute; reflexivity) Hnotin Hred) as (st' & Hst' & _ & Hres).
  vm_compute in Hst'. injection Hst' as <-. vm_compute in Hres. discriminate.
Qed.

(** ** C8: splicing a ratified statement into [ratifiedOrder] *)

Lemma splice_insert_in_range {A} (l : list A) (k : Z) (x : A) :
  (0 <= k <= Z.of_nat (length l))%Z ->
  splice_insert l k x = take (Z.to_nat k) l ++ x :: drop (Z.to_nat k) l.
Proof.
  intros Hk. unfold splice_insert.
  destruct (Z.ltb_spec k 0); [lia|]. rewrite Z.min_l by lia. done.
Qed.

Lemma splice_insert_shape {A} (l : list A) (k : Z) (x : A) :
  exists j, (j <= length l)%nat /\ splice_insert l k x = take j l ++ x :: drop j l.
Proof.
  unfold splice_insert. eexists. split; [|reflexivity].
  destruct (Z.ltb_spec k 0); lia.
Qed.

Lemma inserted_at {A} (l : list A) (j : nat) (x : A) :
  (j <= length l)%nat ->
  (take j l ++ x :: drop j l) !! j = Some x /\ delete j (take j l ++ x :: drop j l) = l.
Proof.
  intros Hj. split.
  - rewrite lookup_app_r; rewrite length_take; [|lia].
    replace (j - j `min` length l)%nat with 0%nat by lia. done.
  - assert (Hlen : length (take j l) = j) by (rewrite length_take; lia).
    rewrite <- Hlen at 1. rewrite delete_middle. apply take_drop.
Qed.

Lemma applyInsertPosition_shape (currentOrder : list Z) (newIndex : Z)
    (res : option InsertPosition) :
  exists j, (j <= length currentOrder)%nat /\
    applyInsertPosition currentOrder newIndex res =
      take j currentOrder ++ newIndex :: drop j currentOrder.
Proof.
  unfold applyInsertPosition.
  destruct res as [p|].
  2:{ exists (length currentOrder). split; [lia|]. rewrite take_ge, drop_ge by lia. done. }
  case_bool_decide.
  { exists (length currentOrder). split; [lia|]. rewrite take_ge, drop_ge by lia. done. }
  destruct (_ || _).
  { exists (length currentOrder). split; [lia|]. rewrite take_ge, drop_ge by lia. done. }
  destruct (ip_type p); apply splice_insert_shape.
Qed.

Lemma applyInsertPosition_perm (currentOrder : list Z) (newIndex : Z)
    (res : option InsertPosition) :
  applyInsertPosition currentOrder newIndex res ≡ₚ currentOrder ++ [newIndex].
Proof.
  destruct (applyInsertPosition_shape currentOrder newIndex res) as (j & Hj & ->).
  rewrite <- (take_drop j currentOrder) at 3. rewrite <- app_assoc.
  apply Permutation_app_head. simpl. apply Permutation_cons_append.
Qed.

(** C8: [applyInsertPosition] appends the new index when the service result is
    [null], the current order is empty, or the position is outside
    [[0, |currentOrder|)]; otherwise it splices it in at [targetPosition]
    ([before]) or [targetPosition + 1] ([after]).  In every case the result is
    the current order with the new index inserted at one position, so deleting
    that position gives back the current order. *)
Theorem applyInsertPosition_spec (currentOrder : list Z) (newIndex : Z)
    (res : option InsertPosition) :
  ((res = None \/ currentOrder = [] \/
    (exists p, res = Some p /\
       ((ip_index p < 0)%Z \/ (Z.of_nat (length currentOrder) <= ip_index p)%Z))) ->
     applyInsertPosition currentOrder newIndex res = currentOrder ++ [newIndex]) /\
  (forall k, res = Some (mkInsertPosition before k) ->
     (0 <= k < Z.of_nat (length currentOrder))%Z ->
     applyInsertPosition currentOrder newIndex res =
       take (Z.to_nat k) currentOrder ++ newIndex :: drop (Z.to_nat k) currentOrder) /\
  (forall k, res = Some (mkInsertPosition after k) ->
     (0 <= k < Z.of_nat (length currentOrder))%Z ->
     applyInsertPosition currentOrder newIndex res =
       take (Z.to_nat (k + 1)) currentOrder ++ newIndex :: drop (Z.to_nat (k + 1)) currentOrder) /\
  (exists j, applyInsertPosition currentOrder newIndex res !! j = Some newIndex /\
     delete j (applyInsertPosition currentOrder newIndex res) = currentOrder).
Proof.
  split; [|split; [|split]].
  - intros [-> | [-> | (p & -> & Hp)]]; [done| |].
    { destruct res; reflexivity. }
    simpl. case_bool_decide; [done|].
    destruct Hp as [Hp|Hp].
    + apply Z.ltb_lt in Hp. by rewrite Hp.
    + apply Z.leb_le in Hp. by rewrite Hp, orb_true_r.
  - intros k -> Hk. simpl. rewrite bool_decide_false by lia.
    destruct (Z.ltb_spec k 0); [lia|].
    destruct (Z.leb_spec (Z.of_nat (length currentOrder)) k); [lia|].
    simpl. apply splice_insert_in_range. lia.
  - intros k -> Hk. simpl. rewrite bool_decide_false by lia.
    destruct (Z.ltb_spec k 0); [lia|].
    destruct (Z.leb_spec (Z.of_nat (length currentOrder)) k); [lia|].
    simpl. apply splice_insert_in_range. lia.
  - destruct (applyInsertPosition_shape currentOrder newIndex res) as (j & Hj & ->).
    exists j. by apply inserted_at.
Qed.

(** ** C9: malformed inbound messages are ignored *)

(** C9: an inbound message that does not parse, or whose [type] is none of
    ["get_session"], ["add_statement"], ["vote_response"], leaves the room's
    session as it was and sends nothing (the model has no way to close a
    connection, as the code never does). *)
Theorem onMessage_ignores_malformed (env : Env) (sessionState : option Session)
    (connId : string) (message : Inbound)
    (Hmalformed : message = Unparseable \/
       exists type payload, message = Envelope type payload /\
         type <> "get_session" /\ type <> "add_statement" /\ type <> "vote_response") :
  onMessage env sessionState connId message = (sessionState, []).
Proof.
  destruct Hmalformed as [-> | (type & payload & -> & H1 & H2 & H3)]; [done|].
  simpl. rewrite !bool_decide_false by done. done.
Qed.

Lemma onMessage_ignores_malformed_witness :
  onMessage (mkEnv ["u1"] (fun _ => None) (fun _ _ => None) false) (Some moonSession) "u1"
    (Envelope "delete_everything" PMissing) = (Some moonSession, []).
Proof.
  apply onMessage_ignores_malformed. right.
  exists "delete_everything", PMissing. split; [reflexivity|].
  split; [discriminate|]. split; discriminate.
Defined.

(** ** C4: the negation does not reach the statement *)

(** C4: [handleAddStatement] computes a negation and a [negationFirst] coin, but
    [sessionReducer]'s [ADD_STATEMENT] builds the statement from [text],
    [createdBy], [presentUsers] and empty [responses] only, so the resulting
    room state does not depend on either: two runs that differ only in the
    negation service and in the coin give the same session and messages. *)
Theorem handleAddStatement_ignores_negation (conns : list string)
    (neg1 neg2 : string -> option string)
    (ins : list string -> string -> option (option InsertPosition)) (coin1 coin2 : bool)
    (sessionState : option Session) (t userId : string) :
  handleAddStatement (mkEnv conns neg1 ins coin1) sessionState t userId =
  handleAddStatement (mkEnv conns neg2 ins coin2) sessionState t userId.
Proof. reflexivity. Qed.

(** ** C2: how the room authority maintains [ratifiedOrder] *)

Lemma forallb_snd_true (l : list (string * bool)) :
  forallb (fun r => r) (snd <$> l) = true <-> Forall (uncurry (fun (_ : string) r => r = true)) l.
Proof.
  induction l as [|[k b] l IH]; simpl; [split; auto|].
  rewrite andb_true_iff, Forall_cons, IH. simpl. destruct b; naive_solver.
Qed.

Lemma allAgreed_spec (st : Statement) :
  allAgreed st = true <-> map_Forall (fun _ r => r = true) (responses st).
Proof. unfold allAgreed. rewrite map_Forall_to_list. apply forallb_snd_true. Qed.

Lemma size_insert_ge (m : gmap string bool) k v : (size m <= size (<[k := v]> m))%nat.
Proof. rewrite map_size_insert. destruct (m !! k); simpl; lia. Qed.

Lemma size_delete_ge (m : gmap string bool) k : (size m <= S (size (delete k m)))%nat.
Proof. rewrite map_size_delete. destruct (m !! k); simpl; lia. Qed.

Lemma covered_unresolved (st : Statement) :
  covered st -> isStatementResolved st = false ->
  (length (present st) < size (responses st))%nat.
Proof.
  unfold covered, isStatementResolved. intros H1 H2.
  apply bool_decide_eq_false in H2. lia.
Qed.

Lemma covered_resolved (st : Statement) : isStatementResolved st = true -> covered st.
Proof.
  unfold covered, isStatementResolved. intros H. apply bool_decide_eq_true in H. lia.
Qed.

Lemma covered_presence (u : string) (op : PresenceOp) (st : Statement) :
  covered st -> covered (updateStatementPresence u op st).
Proof.
  intros Hc. unfold updateStatementPresence.
  destruct (isStatementResolved st) eqn:R; [done|].
  pose proof (covered_unresolved st Hc R) as Hlt.
  destruct op.
  - case_bool_decide; [done|]. unfold covered. simpl.
    rewrite length_app. simpl. lia.
  - case_bool_decide; [done|]. unfold covered. simpl.
    pose proof (length_filter (fun id => id <> u) (present st)).
    pose proof (size_delete_ge (responses st) u). lia.
Qed.

Lemma covered_respond (u : string) (r : bool) (st : Statement) :
  covered st -> covered (respondStatement u r st).
Proof.
  unfold covered. simpl. pose proof (size_insert_ge (responses st) u r). lia.
Qed.

Lemma reducer_order s a s' :
  sessionReducer s a = Ok s' -> ratifiedOrder s' = ratifiedOrder s.
Proof.
  destruct a; simpl; intros H.
  - by injection H as <-.
  - destruct (_ || _); [discriminate|]. destruct (nth_Z _ _); [|discriminate].
    by injection H as <-.
  - by injection H as <-.
Qed.

Lemma reducer_statements_add s t c p n f s' :
  sessionReducer s (ADD_STATEMENT t c p n f) = Ok s' ->
  statements s' = statements s ++ [{| text := t; createdBy := c; present := p; responses := ∅ |}].
Proof. simpl. intros H. by injection H as <-. Qed.

Lemma reducer_statements_respond s k u r s' :
  sessionReducer s (RESPOND_TO_STATEMENT k u r) = Ok s' ->
  statements s' =
    imap (fun index st => if bool_decide (Z.of_nat index = k)
                          then respondStatement u r st else st) (statements s).
Proof.
  simpl. intros H. destruct (_ || _); [discriminate|].
  destruct (nth_Z _ _); [|discriminate]. by injection H as <-.
Qed.

Lemma reducer_statements_presence s u op s' :
  sessionReducer s (UPDATE_UNRESOLVED_STATEMENTS u op) = Ok s' ->
  statements s' = map (updateStatementPresence u op) (statements s).
Proof. simpl. intros H. by injection H as <-. Qed.

Lemma handleStatementRatified_spec env s i :
  statements (handleStatementRatified env s i) = statements s /\
  (ratifiedOrder (handleStatementRatified env s i) = ratifiedOrder s \/
   ratifiedOrder (handleStatementRatified env s i) ≡ₚ ratifiedOrder s ++ [i]).
Proof.
  unfold handleStatementRatified.
  destruct (nth_Z (statements s) i); [|auto].
  destruct (insertStatement _ _ _); simpl; split; auto.
  right. apply applyInsertPosition_perm.
Qed.

(** Ratifying a statement that is ratified and not yet listed. *)
Lemma ratify_preserves env s i :
  orderInvariant s -> i ∉ ratifiedOrder s -> ratifiedAt s i ->
  let s' := handleStatementRatified env s i in
  orderInvariant s' /\ statements s' = statements s /\
  (forall x, x ∈ ratifiedOrder s -> x ∈ ratifiedOrder s') /\
  (forall x, x ∈ ratifiedOrder s' -> x ∉ ratifiedOrder s -> x = i).
Proof.
  intros [Hnd Hcov] Hnotin Hrat s'.
  destruct (handleStatementRatified_spec env s i) as [Hsts [Hord | Hperm]];
    fold s' in Hsts; [fold s' in Hord | fold s' in Hperm].
  - unfold orderInvariant. rewrite Hord. split.
    + split; [done|]. intros x Hx. rewrite Hsts. by apply Hcov.
    + split; [done|]. split; [done|]. intros x Hx Hx'. done.
  - assert (Hin : forall x, x ∈ ratifiedOrder s' <-> x ∈ ratifiedOrder s \/ x = i).
    { intros x. rewrite Hperm, elem_of_app, list_elem_of_singleton. done. }
    unfold orderInvariant. split; [split|].
    + rewrite Hperm. apply NoDup_app. split; [done|]. split; [|by apply NoDup_singleton].
      intros x Hx ->%list_elem_of_singleton. done.
    + intros x [Hx | ->]%Hin; rewrite Hsts; [by apply Hcov|].
      destruct Hrat as (st & Hst & Hres & _). exists st. split; [done|].
      by apply covered_resolved.
    + split; [done|]. split.
      * intros x Hx. apply Hin. by left.
      * intros x [Hx | ->]%Hin Hx'; done.
Qed.

Lemma ratifiedAt_same_statements s s' x :
  statements s' = statements s -> ratifiedAt s x -> ratifiedAt s' x.
Proof. unfold ratifiedAt. intros ->. done. Qed.

Lemma ratify_step env s i (b : bool) :
  orderInvariant s -> (b = true -> (i ∉ ratifiedOrder s) /\ ratifiedAt s i) ->
  let s' := if b then handleStatementRatified env s i else s in
  orderInvariant s' /\ statements s' = statements s /\
  (forall x, x ∈ ratifiedOrder s -> x ∈ ratifiedOrder s') /\
  (forall x, x ∈ ratifiedOrder s' -> x ∉ ratifiedOrder s -> ratifiedAt s' x).
Proof.
  intros Hinv Hb s'. subst s'. destruct b.
  - destruct (Hb eq_refl) as [Hnotin Hrat].
    destruct (ratify_preserves env s i Hinv Hnotin Hrat) as (H1 & H2 & H3 & H4).
    split; [done|]. split; [done|]. split; [done|].
    intros x Hx Hx'. rewrite (H4 x Hx Hx'). by eapply ratifiedAt_same_statements.
  - split; [done|]. split; [done|]. split; [done|]. intros x Hx Hx'. done.
Qed.

Lemma orderInvariant_init : orderInvariant initializeSession.
Proof. split; [constructor|]. intros x Hx. by apply not_elem_of_nil in Hx. Qed.

Lemma handleVoteResponse_order env s k u r :
  orderInvariant s ->
  roomInvariant (handleVoteResponse env (Some s) k u r).1 /\
  orderGrowsByRatified (Some s) (handleVoteResponse env (Some s) k u r).1.
Proof.
  intros [Hnd Hcov]. unfold handleVoteResponse.
  destruct (sessionReducer s (RESPOND_TO_STATEMENT k u r)) as [s1|e] eqn:Hred; simpl.
  2:{ split; [by split|]. split; [done|]. intros x Hx Hx'. done. }
  pose proof (reducer_order _ _ _ Hred) as Hord1.
  pose proof (reducer_statements_respond _ _ _ _ _ Hred) as Hsts1.
  assert (Hinv1 : orderInvariant s1).
  { split; [by rewrite Hord1|]. intros x Hx. rewrite Hord1 in Hx.
    destruct (Hcov x Hx) as (stx & Hstx & Hc).
    rewrite Hsts1, nth_Z_respond, Hstx. simpl.
    eexists. split; [reflexivity|]. case_bool_decide; [by apply covered_respond|done]. }
  match goal with |- context [if ?b then handleStatementRatified _ _ _ else _] =>
    assert (Hb : b = true -> (k ∉ ratifiedOrder s1) /\ ratifiedAt s1 k) end.
  { intros Hb. apply andb_true_iff in Hb as [[Hw Hn]%andb_true_iff Ha].
    destruct (nth_Z (statements s1) k) as [st1|] eqn:E1; [|discriminate].
    split.
    - intros Hk. rewrite Hord1 in Hk. destruct (Hcov k Hk) as (stk & Hstk & Hc).
      rewrite Hstk in Hw. apply negb_true_iff in Hw.
      rewrite Hsts1, nth_Z_respond, Hstk in E1. simpl in E1.
      rewrite bool_decide_true in E1 by done. injection E1 as <-.
      pose proof (covered_unresolved _ Hc Hw).
      unfold isStatementResolved in Hn. simpl in Hn. apply bool_decide_eq_true in Hn.
      pose proof (size_insert_ge (responses stk) u r). lia.
    - exists st1. split; [done|]. split; [done|]. by apply allAgreed_spec. }
  match goal with |- context [if ?b then handleStatementRatified _ _ _ else _] =>
    destruct (ratify_step env s1 k b Hinv1 Hb) as (H1 & H2 & H3 & H4) end.
  split; [exact H1|]. split.
  - intros x Hx. apply H3. by rewrite Hord1.
  - intros x Hx Hx'. apply H4; [done|]. by rewrite Hord1.
Qed.

Lemma orderOf_default st :
  orderOf st = ratifiedOrder (default initializeSession st).
Proof. by destruct st. Qed.

Lemma orderInvariant_default st :
  roomInvariant st -> orderInvariant (default initializeSession st).
Proof. destruct st; simpl; [done|]. intros _. apply orderInvariant_init. Qed.

Lemma handleAddStatement_order env st t u :
  roomInvariant st ->
  roomInvariant (handleAddStatement env st t u).1 /\
  orderGrowsByRatified st (handleAddStatement env st t u).1.
Proof.
  intros Hst. pose proof (orderInvariant_default st Hst) as [Hnd Hcov].
  pose proof (orderOf_default st) as Hord0.
  set (s0 := default initializeSession st) in *.
  unfold handleAddStatement, orderGrowsByRatified. fold s0.
  match goal with |- context [sessionReducer s0 ?a] =>
    destruct (sessionReducer s0 a) as [s1|e] eqn:H1 end; cbv beta iota zeta.
  2:{ simpl. split; [exact (conj Hnd Hcov)|]. rewrite Hord0. split; [done|]. intros x Hx Hx'. done. }
  pose proof (reducer_order _ _ _ H1) as Hord1.
  pose proof (reducer_statements_add _ _ _ _ _ _ _ H1) as Hsts1.
  set (n := (Z.of_nat (length (statements s1)) - 1)%Z).
  assert (Hn : n = Z.of_nat (length (statements s0))).
  { subst n. rewrite Hsts1, length_app. simpl. lia. }
  destruct (sessionReducer s1 (RESPOND_TO_STATEMENT n u true)) as [s2|e] eqn:H2; simpl.
  2:{ simpl. split; [exact (conj Hnd Hcov)|]. rewrite Hord0. split; [done|]. intros x Hx Hx'. done. }
  pose proof (reducer_order _ _ _ H2) as Hord2.
  pose proof (reducer_statements_respond _ _ _ _ _ H2) as Hsts2.
  assert (Hold : forall x, x ∈ ratifiedOrder s0 ->
            (x < n)%Z /\ exists stx, nth_Z (statements s2) x = Some stx /\ covered stx).
  { intros x Hx. destruct (Hcov x Hx) as (stx & Hstx & Hc).
    pose proof (nth_Z_Some_range _ _ _ Hstx) as Hr.
    split; [lia|]. exists stx. split; [|done].
    rewrite Hsts2, nth_Z_respond, Hsts1, (nth_Z_app_l _ _ _ _ Hstx). simpl.
    rewrite bool_decide_false by lia. done. }
  assert (Hinv2 : orderInvariant s2).
  { split; [by rewrite Hord2, Hord1|]. intros x Hx. rewrite Hord2, Hord1 in Hx.
    by apply Hold. }
  rewrite Hord0.
  destruct (nth_Z (statements s2) n) as [stn|] eqn:En.
  2:{ simpl. split; [done|]. split; [by rewrite Hord2, Hord1|].
      intros x Hx Hx'. rewrite Hord2, Hord1 in Hx. done. }
  assert (Hb : isStatementResolved stn && allAgreed stn = true ->
               (n ∉ ratifiedOrder s2) /\ ratifiedAt s2 n).
  { intros [Hr Ha]%andb_true_iff. split.
    - rewrite Hord2, Hord1. intros Hx. destruct (Hold n Hx). lia.
    - exists stn. split; [done|]. split; [done|]. by apply allAgreed_spec. }
  destruct (ratify_step env s2 n _ Hinv2 Hb) as (R1 & R2 & R3 & R4).
  split; [exact R1|]. split.
  - intros x Hx. apply R3. by rewrite Hord2, Hord1.
  - intros x Hx Hx'. apply R4; [done|]. by rewrite Hord2, Hord1.
Qed.

Lemma presence_orderInvariant s u op s' :
  sessionReducer s (UPDATE_UNRESOLVED_STATEMENTS u op) = Ok s' ->
  orderInvariant s -> orderInvariant s' /\ ratifiedOrder s' = ratifiedOrder s.
Proof.
  intros Hred [Hnd Hcov].
  pose proof (reducer_order _ _ _ Hred) as Hord.
  pose proof (reducer_statements_presence _ _ _ _ Hred) as Hsts.
  split; [|done]. split; [by rewrite Hord|].
  intros x Hx. rewrite Hord in Hx. destruct (Hcov x Hx) as (stx & Hstx & Hc).
  exists (updateStatementPresence u op stx).
  rewrite Hsts, nth_Z_map, Hstx. split; [done|]. by apply covered_presence.
Qed.

Lemma fold_ratify env (l : list Z) s :
  orderInvariant s ->
  let s' := foldl (removalLoopBody env) s l in
  orderInvariant s' /\ statements s' = statements s /\
  (forall x, x ∈ ratifiedOrder s -> x ∈ ratifiedOrder s') /\
  (forall x, x ∈ ratifiedOrder s' -> x ∉ ratifiedOrder s -> ratifiedAt s' x).
Proof.
  revert s. induction l as [|i l IH]; intros s Hinv; simpl.
  { split; [done|]. split; [done|]. split; [done|]. intros x Hx Hx'. done. }
  assert (Hstep : let s1 := removalLoopBody env s i in
    orderInvariant s1 /\ statements s1 = statements s /\
    (forall x, x ∈ ratifiedOrder s -> x ∈ ratifiedOrder s1) /\
    (forall x, x ∈ ratifiedOrder s1 -> x ∉ ratifiedOrder s -> ratifiedAt s1 x)).
  { unfold removalLoopBody.
    destruct (nth_Z (statements s) i) as [st|] eqn:E.
    2:{ split; [done|]. split; [done|]. split; [done|]. intros x Hx Hx'. done. }
    apply ratify_step; [done|].
    intros [[Hr Ha]%andb_true_iff Hn]%andb_true_iff.
    apply negb_true_iff, bool_decide_eq_false in Hn. split; [done|].
    exists st. split; [done|]. split; [done|]. by apply allAgreed_spec. }
  destruct Hstep as (H1 & H2 & H3 & H4).
  destruct (IH _ H1) as (G1 & G2 & G3 & G4).
  split; [done|]. split; [by rewrite G2|]. split; [auto|].
  intros x Hx Hx'.
  destruct (decide (x ∈ ratifiedOrder (removalLoopBody env s i))) as [Hin|Hin].
  - eapply ratifiedAt_same_statements; [exact G2|]. by apply H4.
  - by apply G4.
Qed.

Lemma removeUserFromStatements_order env st u :
  roomInvariant st ->
  roomInvariant (removeUserFromStatements env st u).1 /\
  orderGrowsByRatified st (removeUserFromStatements env st u).1.
Proof.
  intros Hst. unfold orderGrowsByRatified.
  destruct st as [s|]; [|done]. unfold removeUserFromStatements.
  destruct (sessionReducer s (UPDATE_UNRESOLVED_STATEMENTS u Remove)) as [s1|e] eqn:Hred;
    cbv beta iota zeta; [|split; [done|]; split; [done|]; intros x Hx Hx'; done].
  destruct (presence_orderInvariant _ _ _ _ Hred Hst) as [Hinv1 Hord1].
  match goal with |- context [foldl (removalLoopBody env) s1 ?l] =>
    destruct (fold_ratify env l s1 Hinv1) as (G1 & G2 & G3 & G4);
    destruct (bool_decide (foldl (removalLoopBody env) s1 l = s)); simpl end.
  - split; [done|]. split; [done|]. intros x Hx Hx'. done.
  - split; [done|]. split.
    + intros x Hx. apply G3. by rewrite Hord1.
    + intros x Hx Hx'. apply G4; [done|]. by rewrite Hord1.
Qed.

Lemma onConnect_order st c :
  roomInvariant st ->
  roomInvariant (onConnect st c).1 /\ orderGrowsByRatified st (onConnect st c).1.
Proof.
  intros Hst. pose proof (orderInvariant_default st Hst) as Hinv0.
  pose proof (orderOf_default st) as Hord0.
  unfold onConnect, orderGrowsByRatified. rewrite Hord0.
  set (s0 := default initializeSession st) in *.
  destruct (_ && _).
  2:{ simpl. split; [done|]. split; [done|]. intros x Hx Hx'. done. }
  destruct (sessionReducer s0 (UPDATE_UNRESOLVED_STATEMENTS c Add)) as [s1|e] eqn:Hred.
  2:{ simpl. split; [done|]. split; [done|]. intros x Hx Hx'. done. }
  destruct (presence_orderInvariant _ _ _ _ Hred Hinv0) as [Hinv1 Hord1].
  destruct (bool_decide (s1 = s0)); simpl.
  - split; [done|]. split; [done|]. intros x Hx Hx'. done.
  - rewrite Hord1. split; [done|]. split; [done|]. intros x Hx Hx'. done.
Qed.

Lemma onMessage_order env st c m :
  roomInvariant st ->
  roomInvariant (onMessage env st c m).1 /\ orderGrowsByRatified st (onMessage env st c m).1.
Proof.
  intros Hst.
  assert (Hid : roomInvariant st /\ orderGrowsByRatified st st).
  { split; [done|]. split; [done|]. intros x Hx Hx'. done. }
  destruct m as [|type payload]; simpl; [done|].
  case_bool_decide; [by destruct st|].
  case_bool_decide.
  { destruct payload as [t u| |].
    1: by apply handleAddStatement_order.
    all: split; [by apply orderInvariant_default|].
    all: unfold orderGrowsByRatified; simpl; rewrite (orderOf_default st).
    all: split; [done|]; intros x Hx Hx'; done. }
  case_bool_decide; [|done].
  destruct payload as [| k u r |]; [done| |done].
  destruct st as [s|]; simpl; [by apply handleVoteResponse_order|done].
Qed.

Lemma roomStep_order st st' :
  roomStep st st' -> roomInvariant st ->
  roomInvariant st' /\ orderGrowsByRatified st st'.
Proof.
  intros Hs Hst. destruct Hs.
  - by apply onMessage_order.
  - by apply onConnect_order.
  - by apply removeUserFromStatements_order.
Qed.

Lemma roomReachable_invariant st : roomReachable st -> roomInvariant st.
Proof.
  induction 1 as [|st st' _ IH Hs]; [done|].
  by destruct (roomStep_order st st' Hs IH).
Qed.

Lemma roomInvariant_valid st x :
  roomInvariant st -> x ∈ orderOf st -> validIn st x.
Proof.
  destruct st as [s|]; simpl; [|intros _ Hx; by apply not_elem_of_nil in Hx].
  intros [_ Hcov] Hx. destruct (Hcov x Hx) as (stx & Hstx & _). by exists stx.
Qed.

Lemma roomInvariant_NoDup st : roomInvariant st -> NoDup (orderOf st).
Proof. destruct st as [s|]; simpl; [by intros [? _]|constructor]. Qed.

(** C2 (as amended): for every transition of the room authority (a message,
    a connection, or a presence removal, each with the ratification it
    triggers) from a reachable state, [ratifiedOrder] afterwards has no
    duplicate and holds only indices of existing statements; the step keeps
    every index it had, and every index it adds is of a statement that is
    ratified (resolved, every response [true]) in the new state.  It does not
    keep [ratifiedOrder] equal to the ratified set: see the counterexample. *)
Theorem ratifiedOrder_grows_by_ratified st st' :
  roomReachable st -> roomStep st st' ->
  NoDup (orderOf st') /\ (forall x, x ∈ orderOf st' -> validIn st' x) /\
  (forall x, x ∈ orderOf st -> x ∈ orderOf st') /\
  (forall x, x ∈ orderOf st' -> x ∉ orderOf st -> ratifiedIn st' x).
Proof.
  intros Hr Hs.
  destruct (roomStep_order st st' Hs (roomReachable_invariant st Hr)) as [Hinv [Hkeep Hnew]].
  split; [by apply roomInvariant_NoDup|]. split; [|by split].
  intros x Hx. by apply roomInvariant_valid.
Qed.

Lemma ratifiedOrder_grows_by_ratified_witness :
  roomReachable soloAdded /\ roomStep soloAdded soloRevoked /\
  (NoDup (orderOf soloRevoked) /\ (forall x, x ∈ orderOf soloRevoked -> validIn soloRevoked x) /\
   (forall x, x ∈ orderOf soloAdded -> x ∈ orderOf soloRevoked) /\
   (forall x, x ∈ orderOf soloRevoked -> x ∉ orderOf soloAdded -> ratifiedIn soloRevoked x)).
Proof.
  assert (H1 : roomReachable soloAdded).
  { apply (roomReachable_step None); [constructor|]. unfold soloAdded. constructor. }
  assert (H2 : roomStep soloAdded soloRevoked) by (unfold soloRevoked; constructor).
  split; [exact H1|]. split; [exact H2|].
  exact (ratifiedOrder_grows_by_ratified soloAdded soloRevoked H1 H2).
Defined.

(** C2, counterexample: [ratifiedOrder] is not the set of ratified statements
    after every transition.  Alone in the room, [u1] adds a statement (their
    automatic [true] vote resolves it and it is appended to [ratifiedOrder]),
    then sends [vote_response] [false] for it: the statement stays resolved,
    no longer has every response [true], and stays in [ratifiedOrder]. *)
Lemma ratifiedOrder_not_ratified_set :
  ~ (forall st st', roomReachable st -> roomStep st st' ->
       forall x, x ∈ orderOf st' <-> ratifiedIn st' x).
Proof.
  intros Hall.
  assert (H1 : roomReachable soloAdded).
  { apply (roomReachable_step None); [constructor|]. unfold soloAdded. constructor. }
  assert (H2 : roomStep soloAdded soloRevoked) by (unfold soloRevoked; constructor).
  pose proof (proj1 (Hall _ _ H1 H2 0%Z)) as Hrat.
  assert (H0 : (0%Z) ∈ orderOf soloRevoked).
  { assert (E : orderOf soloRevoked = [0%Z]) by (vm_compute; reflexivity).
    rewrite E. by apply list_elem_of_singleton. }
  assert (Hc : match soloRevoked with
               | Some s => match nth_Z (statements s) 0 with
                           | Some st0 => allAgreed st0 = false
                           | None => False end
               | None => False end) by (vm_compute; reflexivity).
  specialize (Hrat H0). revert Hrat Hc. generalize soloRevoked.
  intros [s|] Hrat Hc; [|done].
  destruct Hrat as (st0 & Hn & _ & Hag). rewrite Hn in Hc.
  apply allAgreed_spec in Hag. congruence.
Qed.

(* ================================================================== *)
(** * Further properties of the code *)

(** ** The reducer *)

Lemma nth_Z_last {A} (l : list A) x :
  nth_Z (l ++ [x]) (Z.of_nat (length l)) = Some x.
Proof.
  unfold nth_Z. destruct (Z.ltb_spec (Z.of_nat (length l)) 0); [lia|].
  rewrite Nat2Z.id, lookup_app_r by lia. by rewrite Nat.sub_diag.
Qed.

Lemma reachable_liveUnresolved s : reachable s -> liveUnresolved s.
Proof.
  induction 1 as [|s a s' _ IH Hred]; [done|].
  by eapply sessionReducer_liveUnresolved.
Qed.

(** The reducer never changes [ratifiedOrder]: in every session reachable
    from the empty one by reducer actions alone it is empty. *)
Theorem reachable_ratifiedOrder_empty s :
  reachable s -> ratifiedOrder s = [].
Proof.
  induction 1 as [|s a s' _ IH Hred]; [done|].
  by rewrite (reducer_order _ _ _ Hred).
Qed.

Lemma reachable_ratifiedOrder_empty_witness :
  reachable moonVoted /\ ratifiedOrder moonVoted = [].
Proof.
  assert (H : reachable moonVoted).
  { apply (runActions_reachable initializeSession
             [ADD_STATEMENT "We should go to the moon!" "u1" ["u1"; "u2"] None None;
              RESPOND_TO_STATEMENT 0 "u2" true]); [constructor|].
    vm_compute. reflexivity. }
  split; [exact H|]. exact (reachable_ratifiedOrder_empty moonVoted H).
Defined.

(** [getLiveStatement] in a reachable session: it returns nothing exactly when
    [liveStatementIndex] is [null], and otherwise the statement at that index,
    which is unresolved. *)
Theorem getLiveStatement_reachable s :
  reachable s ->
  (getLiveStatement s = None <-> liveStatementIndex s = None) /\
  (forall st, getLiveStatement s = Some st ->
     exists i, liveStatementIndex s = Some i /\ nth_Z (statements s) i = Some st /\
               isStatementResolved st = false).
Proof.
  intros Hr. pose proof (reachable_liveUnresolved s Hr) as Hlive.
  unfold getLiveStatement.
  destruct (liveStatementIndex s) as [i|] eqn:Hl.
  2:{ split; [done|]. intros st Hst. discriminate. }
  destruct (Hlive i Hl) as (st & Hst & Hun).
  pose proof (nth_Z_Some_range _ _ _ Hst) as Hrange.
  destruct (Z.leb_spec (Z.of_nat (length (statements s))) i); [lia|].
  rewrite Hst. split; [done|].
  intros st' [= <-]. by exists i.
Qed.

Lemma reachable_moonSession : reachable moonSession.
Proof.
  apply (runActions_reachable initializeSession
           [ADD_STATEMENT "We should go to the moon!" "u1" ["u1"; "u2"] None None]);
    [constructor|].
  vm_compute. reflexivity.
Qed.

Lemma getLiveStatement_reachable_witness :
  reachable moonSession /\
  (getLiveStatement moonSession = None <-> liveStatementIndex moonSession = None) /\
  (forall st, getLiveStatement moonSession = Some st ->
     exists i, liveStatementIndex moonSession = Some i /\
       nth_Z (statements moonSession) i = Some st /\ isStatementResolved st = false).
Proof.
  split; [exact reachable_moonSession|].
  exact (getLiveStatement_reachable moonSession reachable_moonSession).
Defined.





(** [RESPOND_TO_STATEMENT] only touches the statement it names: that one gets
    the response, every other index keeps its statement, the number of
    statements and [ratifiedOrder] are unchanged. *)
Theorem respond_only_touches_index s i u r s' :
  sessionReducer s (RESPOND_TO_STATEMENT i u r) = Ok s' ->
  length (statements s') = length (statements s) /\
  ratifiedOrder s' = ratifiedOrder s /\
  (exists st, nth_Z (statements s) i = Some st /\
     nth_Z (statements s') i = Some (respondStatement u r st)) /\
  (forall j, j <> i -> nth_Z (statements s') j = nth_Z (statements s) j).
Proof.
  intros Hred.
  pose proof (reducer_order _ _ _ Hred) as Hord.
  pose proof (reducer_statements_respond _ _ _ _ _ Hred) as Hsts.
  assert (Hi : (0 <= i < Z.of_nat (length (statements s)))%Z).
  { simpl in Hred. destruct (Z.ltb_spec i 0); [discriminate|].
    destruct (Z.leb_spec (Z.of_nat (length (statements s))) i); [discriminate|]. lia. }
  rewrite Hsts. split; [apply length_respond|]. split; [done|]. split.
  - destruct (nth_Z_in_range _ _ Hi) as [st Hst]. exists st. split; [done|].
    rewrite nth_Z_respond, Hst. simpl. by rewrite bool_decide_true.
  - intros j Hj. rewrite nth_Z_respond. rewrite bool_decide_false by done.
    by destruct (nth_Z (statements s) j).
Qed.

Lemma respond_only_touches_index_witness :
  sessionReducer moonSession (RESPOND_TO_STATEMENT 0 "u2" true) = Ok moonVoted /\
  (length (statements moonVoted) = length (statements moonSession) /\
   ratifiedOrder moonVoted = ratifiedOrder moonSession /\
   (exists st, nth_Z (statements moonSession) 0 = Some st /\
      nth_Z (statements moonVoted) 0 = Some (respondStatement "u2" true st)) /\
   (forall j, j <> 0%Z -> nth_Z (statements moonVoted) j = nth_Z (statements moonSession) j)).
Proof.
  assert (H : sessionReducer moonSession (RESPOND_TO_STATEMENT 0 "u2" true) = Ok moonVoted)
    by (vm_compute; reflexivity).
  split; [exact H|]. exact (respond_only_touches_index moonSession 0 "u2" true moonVoted H).
Defined.

(** [UPDATE_UNRESOLVED_STATEMENTS] always succeeds; it keeps the number of
    statements, [ratifiedOrder], every statement's text and creator, and
    leaves every resolved statement as it is. *)
Theorem presence_update_keeps s u op :
  exists s', sessionReducer s (UPDATE_UNRESOLVED_STATEMENTS u op) = Ok s' /\
    length (statements s') = length (statements s) /\
    ratifiedOrder s' = ratifiedOrder s /\
    forall i st, nth_Z (statements s) i = Some st ->
      exists st', nth_Z (statements s') i = Some st' /\
        text st' = text st /\ createdBy st' = createdBy st /\
        (isStatementResolved st = true -> st' = st).
Proof.
  assert (Hex : exists s', sessionReducer s (UPDATE_UNRESOLVED_STATEMENTS u op) = Ok s')
    by (eexists; reflexivity).
  destruct Hex as [s' Hred]. exists s'. split; [exact Hred|].
  rewrite (reducer_statements_presence _ _ _ _ Hred), (reducer_order _ _ _ Hred).
  split; [apply length_map|]. split; [done|].
  intros i st Hst. exists (updateStatementPresence u op st).
  rewrite nth_Z_map, Hst. split; [done|].
  unfold updateStatementPresence.
  destruct (isStatementResolved st); [done|].
  destruct op; repeat case_bool_decide; done.
Qed.

(** ** Read-only views *)

Lemma nth_Z_elem_of {A} (l : list A) i x : nth_Z l i = Some x -> x ∈ l.
Proof. unfold nth_Z. destruct (i <? 0)%Z; [done|]. apply list_elem_of_lookup_2. Qed.

Lemma stillRatified_spec st :
  stillRatified st = true <->
  isStatementResolved st = true /\ (0 < size (responses st))%nat /\
  map_Forall (fun _ r => r = true) (responses st).
Proof.
  unfold stillRatified. rewrite !andb_true_iff, bool_decide_eq_true, allAgreed_spec.
  tauto.
Qed.

Lemma filter_omap_pair (f : Z -> option Statement) (l : list Z) :
  filter (fun st => stillRatified st) (omap f l) =
  snd <$> filter (fun p => stillRatified p.2) (omap (fun i => pair i <$> f i) l).
Proof.
  induction l as [|i l IH]; simpl; [done|].
  destruct (f i) as [st|]; simpl; [|done].
  rewrite !filter_cons. simpl. case_decide; simpl; [f_equal|]; exact IH.
Qed.

Lemma filter_imap_pair (g : nat -> Z) (l : list Statement) :
  snd <$> filter (fun p => stillRatified p.2) (imap (fun n x => (g n, x)) l) =
  filter (fun st => stillRatified st) l.
Proof.
  revert g. induction l as [|x l IH]; intros g; simpl; [done|].
  rewrite !filter_cons. simpl.
  case_decide; simpl; [f_equal|]; apply (IH (fun n => g (S n))).
Qed.

Lemma NoDup_indexed {A} (l : list A) : NoDup (indexed l).
Proof.
  apply NoDup_alt. intros i j [k x]. unfold indexed. rewrite !list_lookup_imap.
  destruct (l !! i) eqn:Ei, (l !! j) eqn:Ej; simpl; try discriminate.
  intros [= Hi _] [= Hj _]. lia.
Qed.

Lemma NoDup_omap_pair (f : Z -> option Statement) (l : list Z) :
  NoDup l -> NoDup (omap (fun i => pair i <$> f i) l).
Proof.
  induction l as [|i l IH]; simpl; intros Hnd; [constructor|].
  apply NoDup_cons in Hnd as [Hi Hnd].
  destruct (f i) as [st|] eqn:Ef; simpl; [|by apply IH].
  constructor; [|by apply IH].
  intros (j & Hj & Heq)%list_elem_of_omap.
  destruct (f j); simpl in Heq; [|discriminate]. injection Heq as -> _. done.
Qed.

(** Every statement [getResolvedStatementsWhereEveryoneAgreed] returns is a
    statement of the session that is resolved, has at least one response, and
    has only [true] responses, in both branches (with or without
    [ratifiedOrder]). *)
Theorem getResolvedStatements_sound s st :
  st ∈ getResolvedStatementsWhereEveryoneAgreed s ->
  st ∈ statements s /\ isStatementResolved st = true /\
  (0 < size (responses st))%nat /\ map_Forall (fun _ r => r = true) (responses st).
Proof.
  unfold getResolvedStatementsWhereEveryoneAgreed.
  destruct (ratifiedOrder s) as [|z l].
  - intros [Hr Hin]%list_elem_of_filter. apply Is_true_true, stillRatified_spec in Hr.
    tauto.
  - intros [Hr Hin]%list_elem_of_filter. apply Is_true_true, stillRatified_spec in Hr.
    apply list_elem_of_omap in Hin as (i & _ & Hi). split; [|done].
    by eapply nth_Z_elem_of.
Qed.

Lemma getResolvedStatements_sound_witness :
  let st := {| text := "b"; createdBy := "u1"; present := ["u1"];
               responses := <["u1" := true]> ∅ |} in
  st ∈ getResolvedStatementsWhereEveryoneAgreed agreedTwiceSession /\
  (st ∈ statements agreedTwiceSession /\ isStatementResolved st = true /\
   (0 < size (responses st))%nat /\ map_Forall (fun _ r => r = true) (responses st)).
Proof.
  intros st.
  assert (H : st ∈ getResolvedStatementsWhereEveryoneAgreed agreedTwiceSession).
  { apply (bool_decide_unpack _). vm_compute. reflexivity. }
  split; [exact H|]. exact (getResolvedStatements_sound agreedTwiceSession st H).
Defined.

(** With a non-empty [ratifiedOrder] that has no duplicates and lists every
    index whose statement passes the ratified test, the ordered result of
    [getResolvedStatementsWhereEveryoneAgreed] is a reordering of its
    chronological fallback: the order only changes the sequence. *)
Theorem getResolvedStatements_order_perm s :
  ratifiedOrder s <> [] -> NoDup (ratifiedOrder s) ->
  (forall i st, nth_Z (statements s) i = Some st -> stillRatified st = true ->
     i ∈ ratifiedOrder s) ->
  getResolvedStatementsWhereEveryoneAgreed s ≡ₚ
    filter (fun st => stillRatified st) (statements s).
Proof.
  intros Hne Hnd Hcover.
  assert (Hg : getResolvedStatementsWhereEveryoneAgreed s =
    filter (fun st => stillRatified st)
      (omap (nth_Z (statements s)) (filter (fun idx => validIndex s idx) (ratifiedOrder s)))).
  { unfold getResolvedStatementsWhereEveryoneAgreed.
    destruct (ratifiedOrder s); [congruence|reflexivity]. }
  rewrite Hg, filter_omap_pair, <- (filter_imap_pair Z.of_nat (statements s)).
  apply fmap_Permutation. apply NoDup_Permutation.
  - apply NoDup_filter, NoDup_omap_pair, NoDup_filter, Hnd.
  - apply NoDup_filter, NoDup_indexed.
  - intros [i st]. rewrite !list_elem_of_filter. simpl.
    change (imap (fun n x => (Z.of_nat n, x)) (statements s)) with (indexed (statements s)).
    rewrite elem_of_indexed, list_elem_of_omap. split.
    + intros [Hr (j & Hj & Heq)]. split; [done|].
      destruct (nth_Z (statements s) j) eqn:E; simpl in Heq; [|discriminate].
      injection Heq as -> ->. apply nth_Z_Some_range in E as Hrange.
      split; [lia|done].
    + intros [Hr [Hi Hst]]. split; [done|]. exists i. split.
      * apply list_elem_of_filter. split.
        -- apply Is_true_true. unfold validIndex. apply nth_Z_Some_range in Hst.
           apply andb_true_iff. split; [apply Z.leb_le|apply Z.ltb_lt]; lia.
        -- apply (Hcover i st Hst). by apply Is_true_true.
      * by rewrite Hst.
Qed.

Lemma getResolvedStatements_order_perm_witness :
  ratifiedOrder agreedTwiceSession <> [] /\ NoDup (ratifiedOrder agreedTwiceSession) /\
  (forall i st, nth_Z (statements agreedTwiceSession) i = Some st -> stillRatified st = true ->
     i ∈ ratifiedOrder agreedTwiceSession) /\
  getResolvedStatementsWhereEveryoneAgreed agreedTwiceSession ≡ₚ
    filter (fun st => stillRatified st) (statements agreedTwiceSession).
Proof.
  assert (H1 : ratifiedOrder agreedTwiceSession <> []) by discriminate.
  assert (H2 : NoDup (ratifiedOrder agreedTwiceSession)).
  { apply (bool_decide_unpack _). vm_compute. reflexivity. }
  assert (H3 : forall i st, nth_Z (statements agreedTwiceSession) i = Some st ->
                 stillRatified st = true -> i ∈ ratifiedOrder agreedTwiceSession).
  { intros i st Hst _. apply nth_Z_Some_range in Hst. simpl in Hst.
    assert (i = 0%Z \/ i = 1%Z) as [-> | ->] by lia; simpl; rewrite !elem_of_cons; auto. }
  split; [exact H1|]. split; [exact H2|]. split; [exact H3|].
  exact (getResolvedStatements_order_perm agreedTwiceSession H1 H2 H3).
Defined.

(** The room page's list of ratified statements shows the same statements,
    in the same order, as [getResolvedStatementsWhereEveryoneAgreed] when
    [ratifiedOrder] is non-empty; with an empty [ratifiedOrder] the page shows
    nothing, where the library function falls back to creation order. *)
Theorem ratifiedStatementsWithIndices_matches s :
  snd <$> ratifiedStatementsWithIndices (Some s) =
  match ratifiedOrder s with
  | [] => []
  | _ => getResolvedStatementsWhereEveryoneAgreed s
  end.
Proof.
  unfold ratifiedStatementsWithIndices, getResolvedStatementsWhereEveryoneAgreed.
  destruct (ratifiedOrder s) as [|z l]; [done|].
  symmetry. apply filter_omap_pair.
Qed.

(** ** The room authority *)

Lemma handleStatementRatified_perm env s i st :
  nth_Z (statements s) i = Some st ->
  let s' := handleStatementRatified env s i in
  statements s' = statements s /\ liveStatementIndex s' = liveStatementIndex s /\
  ratifiedOrder s' ≡ₚ ratifiedOrder s ++ [i].
Proof.
  intros Hst. unfold handleStatementRatified. rewrite Hst.
  destruct (insertStatement _ _ _); simpl; split; auto. split; [done|].
  apply applyInsertPosition_perm.
Qed.

(** [handleStatementRatified] keeps the statements and the live index; when
    the statement exists its index is added to [ratifiedOrder] exactly once,
    every earlier entry kept (wherever the position service puts it, and also
    when the service fails); for a missing statement the session is returned
    as it is. *)
Theorem handleStatementRatified_adds_index env s i :
  let s' := handleStatementRatified env s i in
  statements s' = statements s /\ liveStatementIndex s' = liveStatementIndex s /\
  match nth_Z (statements s) i with
  | Some _ => ratifiedOrder s' ≡ₚ ratifiedOrder s ++ [i]
  | None => s' = s
  end.
Proof.
  destruct (nth_Z (statements s) i) as [st|] eqn:Hst.
  - exact (handleStatementRatified_perm env s i st Hst).
  - unfold handleStatementRatified. rewrite Hst. auto.
Qed.

(** When no entry of [ratifiedOrder] is a valid index (for instance when it
    is empty), [insertStatement] is given no text and answers [null] without
    calling the service, so the newly ratified index is appended at the end. *)
Theorem handleStatementRatified_first_appends env s i st :
  filter (fun idx => validIndex s idx) (ratifiedOrder s) = [] ->
  nth_Z (statements s) i = Some st ->
  ratifiedOrder (handleStatementRatified env s i) = ratifiedOrder s ++ [i].
Proof.
  intros Hnone Hst. unfold handleStatementRatified. rewrite Hst, Hnone. simpl.
  unfold applyInsertPosition. reflexivity.
Qed.

Lemma handleStatementRatified_first_appends_witness :
  filter (fun idx => validIndex moonSession idx) (ratifiedOrder moonSession) = [] /\
  nth_Z (statements moonSession) 0 =
    Some {| text := "We should go to the moon!"; createdBy := "u1";
            present := ["u1"; "u2"]; responses := ∅ |} /\
  ratifiedOrder (handleStatementRatified eagerEnv moonSession 0) = ratifiedOrder moonSession ++ [0%Z].
Proof.
  assert (H1 : filter (fun idx => validIndex moonSession idx) (ratifiedOrder moonSession) = [])
    by reflexivity.
  assert (H2 : nth_Z (statements moonSession) 0 =
    Some {| text := "We should go to the moon!"; createdBy := "u1";
            present := ["u1"; "u2"]; responses := ∅ |}) by reflexivity.
  split; [exact H1|]. split; [exact H2|].
  exact (handleStatementRatified_first_appends eagerEnv moonSession 0 _ H1 H2).
Defined.

Lemma handleAddStatement_result env st t u :
  let s0 := default initializeSession st in
  let users := filter (fun id => id <> "") (env_connections env) in
  let n := Z.of_nat (length (statements s0)) in
  let newSt := {| text := t; createdBy := u; present := users;
                  responses := <[u := true]> ∅ |} in
  exists s2, statements s2 = statements s0 ++ [newSt] /\
    ratifiedOrder s2 = ratifiedOrder s0 /\
    handleAddStatement env st t u =
      (let s' := if isStatementResolved newSt && allAgreed newSt
                 then handleStatementRatified env s2 n else s2 in
       (Some s', [Broadcast s'])).
Proof.
  intros s0 users n newSt. unfold handleAddStatement. fold s0.
  match goal with |- context [sessionReducer s0 ?a] =>
    destruct (sessionReducer s0 a) as [s1|e] eqn:H1 end;
    [|simpl in H1; discriminate].
  cbv beta iota zeta.
  pose proof (reducer_order _ _ _ H1) as Hord1.
  pose proof (reducer_statements_add _ _ _ _ _ _ _ H1) as Hsts1.
  assert (Hn : (Z.of_nat (length (statements s1)) - 1)%Z = n).
  { subst n. rewrite Hsts1, length_app. simpl. lia. }
  rewrite Hn.
  assert (Hi : (0 <= n < Z.of_nat (length (statements s1)))%Z).
  { rewrite Hsts1, length_app. simpl. lia. }
  destruct (respond_Ok s1 n u true Hi) as (s2 & H2 & Hsts2).
  rewrite H2. pose proof (reducer_order _ _ _ H2) as Hord2.
  exists s2. split; [|split].
  - rewrite Hsts2, Hsts1. apply list_eq. intros k.
    rewrite list_lookup_imap.
    destruct (decide (k < length (statements s0))%nat) as [Hk|Hk].
    + rewrite !lookup_app_l by done.
      destruct (statements s0 !! k); simpl; [|done].
      rewrite bool_decide_false by lia. done.
    + rewrite !lookup_app_r by lia.
      destruct (decide (k - length (statements s0) = 0)%nat) as [Hk0|Hk0].
      * rewrite Hk0. simpl. rewrite bool_decide_true by lia. done.
      * rewrite !lookup_ge_None_2 by (simpl; lia). done.
  - by rewrite Hord2, Hord1.
  - rewrite Hsts2, nth_Z_respond, Hsts1. subst n. rewrite nth_Z_last. simpl.
    rewrite bool_decide_true by done. reflexivity.
Qed.

Lemma newStatement_resolved_iff t u users :
  isStatementResolved {| text := t; createdBy := u; present := users;
                         responses := <[u := true]> ∅ |} = true <->
  length users = 1%nat.
Proof.
  unfold isStatementResolved. simpl. rewrite bool_decide_eq_true.
  rewrite map_size_insert, lookup_empty, map_size_empty. simpl. lia.
Qed.

Lemma newStatement_allAgreed t u users :
  allAgreed {| text := t; createdBy := u; present := users;
               responses := <[u := true]> ∅ |} = true.
Proof.
  apply allAgreed_spec. simpl. apply map_Forall_insert_2; [done|].
  apply map_Forall_empty.
Qed.

(** [add_statement]: the room appends one statement with the given text and
    creator, whose present list is the ids of the open connections (empty ids
    dropped) and whose only response is the creator's [true]; the earlier
    statements are kept, and the stored session is broadcast to everyone. *)
Theorem handleAddStatement_appends env st t u :
  exists s', handleAddStatement env st t u = (Some s', [Broadcast s']) /\
    statements s' = statements (default initializeSession st) ++
      [{| text := t; createdBy := u;
          present := filter (fun id => id <> "") (env_connections env);
          responses := <[u := true]> ∅ |}].
Proof.
  destruct (handleAddStatement_result env st t u) as (s2 & Hsts & _ & ->).
  simpl. eexists. split; [reflexivity|].
  destruct (_ && _); [|done].
  rewrite <- Hsts. apply handleStatementRatified_spec.
Qed.

(** In a reachable room, a newly added statement is ratified at once (its
    index enters [ratifiedOrder]) exactly when exactly one open connection has
    a non-empty id: the creator's automatic [true] is then the only response
    needed. *)
Theorem handleAddStatement_ratified_at_once env st t u :
  roomReachable st ->
  exists s', (handleAddStatement env st t u).1 = Some s' /\
    (Z.of_nat (length (statements (default initializeSession st))) ∈ ratifiedOrder s' <->
     length (filter (fun id => id <> "") (env_connections env)) = 1%nat).
Proof.
  intros Hr. pose proof (orderInvariant_default st (roomReachable_invariant st Hr)) as [_ Hcov].
  destruct (handleAddStatement_result env st t u) as (s2 & Hsts & Hord & ->).
  simpl. eexists. split; [reflexivity|].
  set (s0 := default initializeSession st) in *.
  set (n := Z.of_nat (length (statements s0))).
  assert (Hnotin : n ∉ ratifiedOrder s0).
  { intros Hin. destruct (Hcov n Hin) as (x & Hx & _).
    apply nth_Z_Some_range in Hx. subst n. lia. }
  rewrite newStatement_allAgreed, andb_true_r.
  destruct (isStatementResolved _) eqn:Hres.
  - apply newStatement_resolved_iff in Hres. split; [done|intros _].
    assert (Hst : exists x, nth_Z (statements s2) n = Some x).
    { rewrite Hsts. eexists. apply nth_Z_last. }
    destruct Hst as [x Hx].
    destruct (handleStatementRatified_perm env s2 n x Hx) as (_ & _ & Hperm).
    rewrite Hperm, Hord. apply list_elem_of_In, in_or_app. right. by left.
  - split; [by rewrite Hord|].
    intros Hl. apply (proj2 (newStatement_resolved_iff t u _)) in Hl. congruence.
Qed.

Lemma handleAddStatement_ratified_at_once_witness :
  roomReachable None /\
  exists s', (handleAddStatement soloEnv None "a" "u1").1 = Some s' /\
    (Z.of_nat (length (statements (default initializeSession None))) ∈ ratifiedOrder s' <->
     length (filter (fun id => id <> "") (env_connections soloEnv)) = 1%nat).
Proof.
  split; [constructor|].
  exact (handleAddStatement_ratified_at_once soloEnv None "a" "u1" roomReachable_init).
Defined.

Lemma handleVoteResponse_valid env s i u r st0 :
  nth_Z (statements s) i = Some st0 ->
  exists s1, sessionReducer s (RESPOND_TO_STATEMENT i u r) = Ok s1 /\
    ratifiedOrder s1 = ratifiedOrder s /\
    nth_Z (statements s1) i = Some (respondStatement u r st0) /\
    handleVoteResponse env (Some s) i u r =
      (let s' := if negb (isStatementResolved st0)
                    && isStatementResolved (respondStatement u r st0)
                    && allAgreed (respondStatement u r st0)
                 then handleStatementRatified env s1 i else s1 in
       (Some s', [Broadcast s'])).
Proof.
  intros Hst. pose proof (nth_Z_Some_range _ _ _ Hst) as Hi.
  destruct (respond_Ok s i u r Hi) as (s1 & H1 & Hsts1).
  assert (Hst1 : nth_Z (statements s1) i = Some (respondStatement u r st0)).
  { rewrite Hsts1, nth_Z_respond, Hst. simpl. by rewrite bool_decide_true. }
  exists s1. split; [done|]. split; [exact (reducer_order _ _ _ H1)|]. split; [done|].
  unfold handleVoteResponse. rewrite Hst, H1. cbv beta iota zeta. rewrite Hst1. reflexivity.
Qed.

(** A vote on a statement that was already resolved never changes
    [ratifiedOrder] (whatever the vote does to the statement, which records the
    response); the stored session is broadcast. *)
Theorem handleVoteResponse_resolved_keeps_order env s i u r st0 :
  nth_Z (statements s) i = Some st0 -> isStatementResolved st0 = true ->
  exists s', handleVoteResponse env (Some s) i u r = (Some s', [Broadcast s']) /\
    ratifiedOrder s' = ratifiedOrder s /\
    nth_Z (statements s') i = Some (respondStatement u r st0).
Proof.
  intros Hst Hres.
  destruct (handleVoteResponse_valid env s i u r st0 Hst) as (s1 & _ & Hord & Hst1 & ->).
  rewrite Hres. simpl. by exists s1.
Qed.

Lemma handleVoteResponse_resolved_keeps_order_witness :
  nth_Z (statements agreedTwiceSession) 0 =
    Some {| text := "a"; createdBy := "u1"; present := ["u1"];
            responses := <["u1" := true]> ∅ |} /\
  isStatementResolved {| text := "a"; createdBy := "u1"; present := ["u1"];
                         responses := <["u1" := true]> ∅ |} = true /\
  exists s', handleVoteResponse soloEnv (Some agreedTwiceSession) 0 "u1" false =
               (Some s', [Broadcast s']) /\
    ratifiedOrder s' = ratifiedOrder agreedTwiceSession /\
    nth_Z (statements s') 0 =
      Some (respondStatement "u1" false {| text := "a"; createdBy := "u1"; present := ["u1"];
                                           responses := <["u1" := true]> ∅ |}).
Proof.
  assert (H1 : nth_Z (statements agreedTwiceSession) 0 =
    Some {| text := "a"; createdBy := "u1"; present := ["u1"];
            responses := <["u1" := true]> ∅ |}) by reflexivity.
  assert (H2 : isStatementResolved {| text := "a"; createdBy := "u1"; present := ["u1"];
                                      responses := <["u1" := true]> ∅ |} = true)
    by (vm_compute; reflexivity).
  split; [exact H1|]. split; [exact H2|].
  exact (handleVoteResponse_resolved_keeps_order soloEnv agreedTwiceSession 0 "u1" false _ H1 H2).
Defined.

(** A vote that turns an unresolved statement into a resolved one whose
    responses are all [true] ratifies it: its index is added to
    [ratifiedOrder], every earlier entry kept. *)
Theorem handleVoteResponse_ratifies env s i u r st0 :
  nth_Z (statements s) i = Some st0 -> isStatementResolved st0 = false ->
  isStatementResolved (respondStatement u r st0) = true ->
  allAgreed (respondStatement u r st0) = true ->
  exists s', handleVoteResponse env (Some s) i u r = (Some s', [Broadcast s']) /\
    ratifiedOrder s' ≡ₚ ratifiedOrder s ++ [i].
Proof.
  intros Hst Hres Hnow Hag.
  destruct (handleVoteResponse_valid env s i u r st0 Hst) as (s1 & _ & Hord & Hst1 & ->).
  rewrite Hres, Hnow, Hag. simpl. eexists. split; [reflexivity|].
  destruct (handleStatementRatified_perm env s1 i _ Hst1) as (_ & _ & ->).
  by rewrite Hord.
Qed.

Lemma handleVoteResponse_ratifies_witness :
  let st0 := {| text := "We should go to the moon!"; createdBy := "u1";
                present := ["u1"; "u2"]; responses := <["u2" := true]> ∅ |} in
  nth_Z (statements moonVoted) 0 = Some st0 /\ isStatementResolved st0 = false /\
  isStatementResolved (respondStatement "u1" true st0) = true /\
  allAgreed (respondStatement "u1" true st0) = true /\
  exists s', handleVoteResponse soloEnv (Some moonVoted) 0 "u1" true = (Some s', [Broadcast s']) /\
    ratifiedOrder s' ≡ₚ ratifiedOrder moonVoted ++ [0%Z].
Proof.
  intros st0.
  assert (H1 : nth_Z (statements moonVoted) 0 = Some st0) by (vm_compute; reflexivity).
  assert (H2 : isStatementResolved st0 = false) by (vm_compute; reflexivity).
  assert (H3 : isStatementResolved (respondStatement "u1" true st0) = true)
    by (vm_compute; reflexivity).
  assert (H4 : allAgreed (respondStatement "u1" true st0) = true) by (vm_compute; reflexivity).
  split; [exact H1|]. split; [exact H2|]. split; [exact H3|]. split; [exact H4|].
  exact (handleVoteResponse_ratifies soloEnv moonVoted 0 "u1" true st0 H1 H2 H3 H4).
Defined.

(** A connecting client always receives the session the room stores after
    the connection (created if there was none). *)
Theorem onConnect_sends_session st c :
  exists s', (onConnect st c).1 = Some s' /\ SendTo c s' ∈ (onConnect st c).2.
Proof.
  unfold onConnect. set (s0 := default initializeSession st).
  destruct (_ && _).
  - assert (Hex : exists s1, sessionReducer s0 (UPDATE_UNRESOLVED_STATEMENTS c Add) = Ok s1)
      by (eexists; reflexivity).
    destruct Hex as [s1 H1]. rewrite H1.
    destruct (bool_decide (s1 = s0)); simpl; eexists; (split; [reflexivity|]);
      rewrite ?elem_of_cons, ?list_elem_of_singleton; auto.
  - simpl. eexists. split; [reflexivity|]. by apply list_elem_of_singleton.
Qed.

(** After a client with a non-empty id connects, it is present in every
    statement that was unresolved before; those statements keep their text,
    creator and responses, and the number of statements and [ratifiedOrder]
    are unchanged. *)
Theorem onConnect_joins_unresolved st c :
  c <> "" ->
  let s0 := default initializeSession st in
  exists s', (onConnect st c).1 = Some s' /\
    length (statements s') = length (statements s0) /\
    ratifiedOrder s' = ratifiedOrder s0 /\
    forall i st0, nth_Z (statements s0) i = Some st0 -> isStatementResolved st0 = false ->
      exists st1, nth_Z (statements s') i = Some st1 /\ c ∈ present st1 /\
        text st1 = text st0 /\ createdBy st1 = createdBy st0 /\ responses st1 = responses st0.
Proof.
  intros Hc s0. unfold onConnect. fold s0.
  assert (Hex : exists s1, sessionReducer s0 (UPDATE_UNRESOLVED_STATEMENTS c Add) = Ok s1)
    by (eexists; reflexivity).
  destruct Hex as [s1 H1].
  pose proof (reducer_statements_presence _ _ _ _ H1) as Hsts1.
  pose proof (reducer_order _ _ _ H1) as Hord1.
  assert (P : length (statements s1) = length (statements s0) /\
    ratifiedOrder s1 = ratifiedOrder s0 /\
    forall i st0, nth_Z (statements s0) i = Some st0 -> isStatementResolved st0 = false ->
      exists st1, nth_Z (statements s1) i = Some st1 /\ c ∈ present st1 /\
        text st1 = text st0 /\ createdBy st1 = createdBy st0 /\ responses st1 = responses st0).
  { rewrite Hsts1, Hord1. split; [apply length_map|]. split; [done|].
    intros i st0 Hst Hun. exists (updateStatementPresence c Add st0).
    rewrite nth_Z_map, Hst. split; [done|].
    unfold updateStatementPresence. rewrite Hun.
    case_bool_decide as Hin; simpl; [done|].
    split; [|done]. apply list_elem_of_In, in_or_app. right. by left. }
  destruct (_ && _) eqn:G.
  - rewrite H1. destruct (bool_decide (s1 = s0)) eqn:Heq; simpl.
    + apply bool_decide_eq_true in Heq.
      exists s1. split; [by rewrite Heq|exact P].
    + exists s1. split; [done|exact P].
  - simpl. exists s0. split; [done|]. split; [done|]. split; [done|].
    apply andb_false_iff in G as [G|G]; apply bool_decide_eq_false in G; [done|].
    destruct (statements s0) as [|x l] eqn:E; [|exfalso; apply G; try rewrite E; discriminate].
    intros i st0 Hst. unfold nth_Z in Hst. by destruct (i <? 0)%Z.
Qed.

Lemma onConnect_joins_unresolved_witness :
  "u3" <> "" /\
  exists s', (onConnect (Some moonSession) "u3").1 = Some s' /\
    length (statements s') = length (statements moonSession) /\
    ratifiedOrder s' = ratifiedOrder moonSession /\
    forall i st0, nth_Z (statements moonSession) i = Some st0 -> isStatementResolved st0 = false ->
      exists st1, nth_Z (statements s') i = Some st1 /\ "u3" ∈ present st1 /\
        text st1 = text st0 /\ createdBy st1 = createdBy st0 /\ responses st1 = responses st0.
Proof.
  assert (Hc : "u3" <> "") by discriminate.
  split; [exact Hc|]. exact (onConnect_joins_unresolved (Some moonSession) "u3" Hc).
Defined.


